(** * Terminal bridge of the HTTP/2 editor: registry, channels and client

    A shallow embedding of the terminal part of [http2editor/server.js]
    (the session registry behind [GET /api/terminal/:sessionId] and the
    input and resize endpoints) and of the terminal client in
    [http2editor/public/app.js] (input queue, debounce, reconnect logic),
    with the properties of the specification stated over them. *)

From Stdlib Require Import ZArith Lia Ascii.
From stdpp Require Import base option list gmap strings fin_maps.

Local Open Scope string_scope.
Local Open Scope list_scope.
Local Open Scope nat_scope.

(** ** Values shared by both sides *)

(** A value found in a parsed JSON request body.  [JUndefined] is what
    destructuring yields for an absent field; numbers are restricted to
    integers; [JObj] stands for any object or array. *)
Inductive jsval :=
| JUndefined
| JNull
| JBool (b : bool)
| JNum (n : Z)
| JStr (s : string)
| JObj.

(** JavaScript truthiness, the meaning of [!v] and of [a && b] tests. *)
Definition truthy (v : jsval) : bool :=
  match v with
  | JUndefined | JNull => false
  | JBool b => b
  | JNum n => negb (n =? 0)%Z
  | JStr s => negb (String.eqb s "")
  | JObj => true
  end.

(** One message of the push channel, [data: <json>\n\n] on the wire. *)
Inductive frame :=
| FConnected
| FOutput (data : string)
| FError (data : string)
| FExit (exitCode : Z) (signal : option Z).

(** ** The server: [server.js] *)
Module Server.

(** The object stored in [terminalSessions]: [{ pty: ptyProcess, res }].
    [pty] is the index of the process in the process table, [res] the
    index of the response object, or [None] for [null]. *)
Record session := Session { pty : nat; res : option nat }.

(** What the callbacks registered on a spawned process captured: the
    [sessionId] and the [res] of the request that spawned it.  [running]
    is the life cycle of the handle (Running, then Exited for good). *)
Record process := Process { p_sid : string; p_res : nat; running : bool }.

(** A response object of the push channel.  [written] is what reached the
    wire, [captured] is the [session] constant the [close] listener of the
    request closed over. *)
Record response := Response {
  destroyed : bool;
  ended : bool;
  written : list frame;
  captured : option nat
}.

(** Calls made on the process-spawn facility and on process handles, in
    the order they are made (a call is recorded whether or not it then
    throws). *)
Inductive effect :=
| ESpawn (p : nat) (cols rows : Z)
| EWrite (p : nat) (v : jsval)
| EResize (p : nat) (cols rows : jsval).

(** The whole server: the [terminalSessions] map holds references into
    [heap], the store of session objects, so that a listener holding a
    session object and the map entry see the same [res] field. *)
Record state := State {
  terminalSessions : gmap string nat;
  heap : list session;
  procs : list process;
  responses : list response;
  timers : list nat;
  effects : list effect
}.

Definition init : state :=
  {| terminalSessions := ∅; heap := []; procs := []; responses := [];
     timers := []; effects := [] |}.

(** Field updates. *)
Definition set_res (o : option nat) (s : session) : session :=
  {| pty := pty s; res := o |}.

Definition set_exited (pr : process) : process :=
  {| p_sid := p_sid pr; p_res := p_res pr; running := false |}.

Definition add_frame (f : frame) (o : response) : response :=
  {| destroyed := destroyed o; ended := ended o;
     written := written o ++ [f]; captured := captured o |}.

Definition set_ended (o : response) : response :=
  {| destroyed := destroyed o; ended := true;
     written := written o; captured := captured o |}.

Definition set_destroyed (o : response) : response :=
  {| destroyed := true; ended := ended o;
     written := written o; captured := captured o |}.

Definition with_sessions (m : gmap string nat) (st : state) : state :=
  {| terminalSessions := m; heap := heap st; procs := procs st;
     responses := responses st; timers := timers st; effects := effects st |}.

Definition with_heap (h : list session) (st : state) : state :=
  {| terminalSessions := terminalSessions st; heap := h; procs := procs st;
     responses := responses st; timers := timers st; effects := effects st |}.

Definition with_procs (ps : list process) (st : state) : state :=
  {| terminalSessions := terminalSessions st; heap := heap st; procs := ps;
     responses := responses st; timers := timers st; effects := effects st |}.

Definition with_responses (rs : list response) (st : state) : state :=
  {| terminalSessions := terminalSessions st; heap := heap st;
     procs := procs st; responses := rs; timers := timers st;
     effects := effects st |}.

Definition with_timers (ts : list nat) (st : state) : state :=
  {| terminalSessions := terminalSessions st; heap := heap st;
     procs := procs st; responses := responses st; timers := ts;
     effects := effects st |}.

Definition add_effect (e : effect) (st : state) : state :=
  {| terminalSessions := terminalSessions st; heap := heap st;
     procs := procs st; responses := responses st; timers := timers st;
     effects := effects st ++ [e] |}.

(** [res && !res.destroyed] *)
Definition res_live (st : state) (r : nat) : bool :=
  match responses st !! r with
  | Some o => negb (destroyed o)
  | None => false
  end.

(** [res.write(frame)]: the frame reaches the wire unless the response was
    already ended or destroyed, in which case nothing is delivered. *)
Definition res_write (r : nat) (f : frame) (st : state) : state :=
  match responses st !! r with
  | Some o =>
      if ended o || destroyed o then st
      else with_responses (<[r := add_frame f o]> (responses st)) st
  | None => st
  end.

(** [res.end()] *)
Definition res_end (r : nat) (st : state) : state :=
  with_responses (alter set_ended r (responses st)) st.

(** [terminalSessions.get(sessionId)], dereferenced. *)
Definition get_session (st : state) (sid : string) : option session :=
  terminalSessions st !! sid ≫= λ a, heap st !! a.

(** The process bound to an id. *)
Definition pty_of (st : state) (sid : string) : option nat :=
  pty <$> get_session st sid.

(** The sink bound to an id: [session.res]. *)
Definition sink_of (st : state) (sid : string) : option nat :=
  get_session st sid ≫= res.

(** [GET /api/terminal/:sessionId].  The new response gets the
    [connected] frame; an unknown id spawns a process whose callbacks
    close over this response, stores the session and arms the 100 ms
    prompt timer; a known id only has [session.res] reassigned.  The
    [close] listener then captures [terminalSessions.get(sessionId)]. *)
Definition attach (sid : string) (st : state) : state :=
  let r := length (responses st) in
  let new_res a :=
    responses st ++
      [{| destroyed := false; ended := false; written := [FConnected];
          captured := Some a |}] in
  match terminalSessions st !! sid with
  | None =>
      let p := length (procs st) in
      let a := length (heap st) in
      {| terminalSessions := <[sid := a]> (terminalSessions st);
         heap := heap st ++ [{| pty := p; res := Some r |}];
         procs := procs st ++ [{| p_sid := sid; p_res := r; running := true |}];
         responses := new_res a;
         timers := timers st ++ [p];
         effects := effects st ++ [ESpawn p 80 24] |}
  | Some a =>
      {| terminalSessions := terminalSessions st;
         heap := alter (set_res (Some r)) a (heap st);
         procs := procs st;
         responses := new_res a;
         timers := timers st;
         effects := effects st |}
  end.

(** The client went away: the response is destroyed and the [close]
    listener of its request runs, [if (session) session.res = null]. *)
Definition on_close (r : nat) (st : state) : state :=
  match responses st !! r with
  | Some o =>
      let st1 := with_responses (<[r := set_destroyed o]> (responses st)) st in
      match captured o with
      | Some a => with_heap (alter (set_res None) a (heap st1)) st1
      | None => st1
      end
  | None => st
  end.

(** [ptyProcess.onData] callback of process [p]: the captured response
    when it is not destroyed, otherwise the [res] of the session found
    under the captured id, when that one is set and not destroyed. *)
Definition onData (p : nat) (data : string) (st : state) : state :=
  match procs st !! p with
  | Some pr =>
      if res_live st (p_res pr) then res_write (p_res pr) (FOutput data) st
      else
        match get_session st (p_sid pr) with
        | Some s =>
            match res s with
            | Some r' =>
                if res_live st r' then res_write r' (FOutput data) st else st
            | None => st
            end
        | None => st
        end
  | None => st
  end.

(** [ptyProcess.onExit] callback of process [p]. *)
Definition onExit (p : nat) (exitCode : Z) (signal : option Z)
    (st : state) : state :=
  match procs st !! p with
  | Some pr =>
      let st1 :=
        if res_live st (p_res pr)
        then res_end (p_res pr)
               (res_write (p_res pr) (FExit exitCode signal) st)
        else st in
      with_sessions (delete (p_sid pr) (terminalSessions st1)) st1
  | None => st
  end.

(** The process leaves Running and its exit callback is invoked. *)
Definition exit_process (p : nat) (exitCode : Z) (signal : option Z)
    (st : state) : state :=
  onExit p exitCode signal
    (with_procs (alter set_exited p (procs st)) st).

(** The 100 ms timer armed at spawn: [ptyProcess.write('\r\n')].  The
    [killed] property it tests is never set by this program. *)
Definition crlf : string :=
  String (Ascii.ascii_of_nat 13) (String (Ascii.ascii_of_nat 10) EmptyString).

Fixpoint remove_first (p : nat) (l : list nat) : list nat :=
  match l with
  | [] => []
  | x :: l' => if Nat.eqb x p then l' else x :: remove_first p l'
  end.

Definition prompt_timer (p : nat) (st : state) : state :=
  add_effect (EWrite p (JStr crlf))
    (with_timers (remove_first p (timers st)) st).

(** Replies of the request/response endpoints. *)
Inductive reply_body :=
| Success
| Failure (error : string).

Record reply := Reply { status : nat; body : reply_body }.

(** A parsed JSON body, and destructuring of one field of it. *)
Definition field (b : gmap string jsval) (k : string) : jsval :=
  default JUndefined (b !! k).

(** [POST /api/terminal/:sessionId/input].  [pty_ok] tells whether the
    call on the process handle returns normally ([false]: it throws). *)
Definition input_handler (sid : string) (b : gmap string jsval)
    (pty_ok : bool) (st : state) : state * reply :=
  let input := field b "input" in
  if negb (truthy input) then
    (st, Reply 400 (Failure "Input is required"))
  else
    match get_session st sid with
    | Some s =>
        (add_effect (EWrite (pty s) input) st,
         if pty_ok then Reply 200 Success
         else Reply 500 (Failure "Failed to write to terminal"))
    | None =>
        (st, Reply 404 (Failure "Session not found. Please refresh the page."))
    end.

(** [POST /api/terminal/:sessionId/resize].  There is no [try] around the
    call: when it throws, the framework answers 500. *)
Definition resize_handler (sid : string) (b : gmap string jsval)
    (pty_ok : bool) (st : state) : state * reply :=
  let cols := field b "cols" in
  let rows := field b "rows" in
  match get_session st sid with
  | Some s =>
      (add_effect (EResize (pty s) cols rows) st,
       if pty_ok then Reply 200 Success
       else Reply 500 (Failure "Internal Server Error"))
  | None => (st, Reply 404 (Failure "Session not found"))
  end.

(** Everything that can happen to the server. *)
Inductive event :=
| Attach (sid : string)
| Close (r : nat)
| Data (p : nat) (chunk : string)
| Exit (p : nat) (exitCode : Z) (signal : option Z)
| PromptTimer (p : nat)
| Input (sid : string) (b : gmap string jsval) (pty_ok : bool)
| Resize (sid : string) (b : gmap string jsval) (pty_ok : bool).

Definition is_running (st : state) (p : nat) : bool :=
  match procs st !! p with
  | Some pr => running pr
  | None => false
  end.

(** A connection closes once; only a running process emits output or
    exits; a timer fires only while armed. *)
Definition enabled (st : state) (e : event) : bool :=
  match e with
  | Attach _ => true
  | Close r => res_live st r
  | Data p _ => is_running st p
  | Exit p _ _ => is_running st p
  | PromptTimer p => bool_decide (p ∈ timers st)
  | Input _ _ _ => true
  | Resize _ _ _ => true
  end.

Definition step (e : event) (st : state) : state :=
  match e with
  | Attach sid => attach sid st
  | Close r => on_close r st
  | Data p chunk => onData p chunk st
  | Exit p c sg => exit_process p c sg st
  | PromptTimer p => prompt_timer p st
  | Input sid b ok => fst (input_handler sid b ok st)
  | Resize sid b ok => fst (resize_handler sid b ok st)
  end.

(** Running a trace; [None] when an event is not enabled where it occurs. *)
Fixpoint exec (tr : list event) (st : state) : option state :=
  match tr with
  | [] => Some st
  | e :: tr' => if enabled st e then exec tr' (step e st) else None
  end.

(** Number of processes ever spawned for an id. *)
Definition spawned_for (sid : string) (st : state) : nat :=
  length (filter (λ s, s = sid) (p_sid <$> procs st)).

(** Frames written to a response so far. *)
Definition frames_of (st : state) (r : nat) : list frame :=
  match responses st !! r with
  | Some o => written o
  | None => []
  end.

(** The state after a re-attach: the session object found under the id
    gets the new response as its [res], and that is all. *)
Definition rebound (a : nat) (st : state) : state :=
  {| terminalSessions := terminalSessions st;
     heap := alter (set_res (Some (length (responses st)))) a (heap st);
     procs := procs st;
     responses := responses st ++
       [{| destroyed := false; ended := false; written := [FConnected];
           captured := Some a |}];
     timers := timers st;
     effects := effects st |}.

(** [cols >= 1] (or [rows >= 1]) for a value of a request body. *)
Definition dim_valid (v : jsval) : bool :=
  match v with
  | JNum n => (1 <=? n)%Z
  | _ => false
  end.

(** *** Concrete runs *)

(** A run used as a concrete instance: a session is opened, prints, and
    its client goes away. *)
Definition tr_one : list event := [Attach "s1"; Data 0 "x"; Close 0].
Definition st_one : state := default init (exec tr_one init).

(** The client of a session reconnects: first response closed, second
    one attached. *)
Definition tr_reattached : list event := [Attach "s1"; Close 0; Attach "s1"].
Definition st_reattached : state := default init (exec tr_reattached init).

(** A second channel is opened for an id while the first is still open. *)
Definition tr_two_sinks : list event := [Attach "s1"; Attach "s1"].
Definition st_two_sinks : state := default init (exec tr_two_sinks init).

(** ... and then the first one closes. *)
Definition tr_first_closed : list event := [Attach "s1"; Attach "s1"; Close 0].
Definition st_first_closed : state := default init (exec tr_first_closed init).

(** The client of a session went away and the process keeps printing. *)
Definition tr_detached : list event := [Attach "s1"; Data 0 "$ "; Close 0].
Definition st_detached : state := default init (exec tr_detached init).

(** *** The registry invariant

    Every registered id points at a session object whose process is
    running and was spawned for that id, and every running process is the
    one its id is registered with. *)
Record inv (st : state) : Prop := Inv {
  inv_reg : ∀ sid a, terminalSessions st !! sid = Some a →
    ∃ s pr, heap st !! a = Some s ∧ procs st !! pty s = Some pr
            ∧ p_sid pr = sid ∧ running pr = true;
  inv_run : ∀ p pr, procs st !! p = Some pr → running pr = true →
    ∃ a s, terminalSessions st !! p_sid pr = Some a
           ∧ heap st !! a = Some s ∧ pty s = p
}.


(** The responses after a run of chunks that all reach response [r]. *)
Definition with_chunks (chunks : list string) (o : response) : response :=
  {| destroyed := destroyed o; ended := ended o;
     written := written o ++ (FOutput <$> chunks); captured := captured o |}.

(** The input request for one keystroke payload. *)
Definition input_of (sid : string) (x : string) : event :=
  Input sid {[ "input" := JStr x ]} true.

End Server.

(** ** The client: [public/app.js] *)

(** *** The input queue of [initTerminal] *)
Module Input.

(** The variables the input closures share.  [frame_requests] counts the
    [requestAnimationFrame(processInputQueue)] callbacks not yet run,
    [in_flight] the input requests sent and not yet settled; [sent] and
    [pushed] log the calls of [sendTerminalInput] and of
    [inputQueue.push], in order.  A string stands for a JavaScript string,
    one character per code unit. *)
Record input_state := InputState {
  inputQueue : list string;
  isProcessingInput : bool;
  lastInputTime : Z;
  frame_requests : nat;
  in_flight : nat;
  sent : list string;
  pushed : list string
}.

Definition INPUT_DEBOUNCE_MS : Z := 5.

Definition input_init : input_state :=
  {| inputQueue := []; isProcessingInput := false; lastInputTime := 0;
     frame_requests := 0; in_flight := 0; sent := []; pushed := [] |}.

(** [processInputQueue]: nothing while a request is being processed or
    the queue is empty; otherwise shift one entry, raise the flag and send
    the entry. *)
Definition processInputQueue (st : input_state) : input_state :=
  if isProcessingInput st || Nat.eqb (length (inputQueue st)) 0 then st
  else
    match inputQueue st with
    | [] => st
    | input :: rest =>
        {| inputQueue := rest; isProcessingInput := true;
           lastInputTime := lastInputTime st;
           frame_requests := frame_requests st;
           in_flight := S (in_flight st);
           sent := sent st ++ [input];
           pushed := pushed st |}
    end.

(** The [finally] callback of a request, run when it settles, with
    success or failure alike: lower the flag and, when the queue is not
    empty, ask for an animation frame to process it. *)
Definition request_settled (st : input_state) : input_state :=
  {| inputQueue := inputQueue st; isProcessingInput := false;
     lastInputTime := lastInputTime st;
     frame_requests :=
       if Nat.ltb 0 (length (inputQueue st)) then S (frame_requests st)
       else frame_requests st;
     in_flight := pred (in_flight st);
     sent := sent st;
     pushed := pushed st |}.

(** The animation frame runs one requested [processInputQueue]. *)
Definition input_frame (st : input_state) : input_state :=
  processInputQueue
    {| inputQueue := inputQueue st; isProcessingInput := isProcessingInput st;
       lastInputTime := lastInputTime st;
       frame_requests := pred (frame_requests st);
       in_flight := in_flight st; sent := sent st; pushed := pushed st |}.

(** The test that drops an input:
    [now - lastInputTime < INPUT_DEBOUNCE_MS && data.length === 1]. *)
Definition debounced (now : Z) (data : string) (st : input_state) : bool :=
  (now - lastInputTime st <? INPUT_DEBOUNCE_MS)%Z
  && Nat.eqb (String.length data) 1.

(** The [terminal.onData] listener, called with the clock value [now]. *)
Definition terminal_onData (now : Z) (data : string) (st : input_state)
    : input_state :=
  if debounced now data st then st
  else
    let st1 :=
      {| inputQueue := inputQueue st ++ [data];
         isProcessingInput := isProcessingInput st;
         lastInputTime := now;
         frame_requests := frame_requests st;
         in_flight := in_flight st; sent := sent st;
         pushed := pushed st ++ [data] |} in
    if negb (isProcessingInput st1) then processInputQueue st1 else st1.

Inductive input_event :=
| Key (now : Z) (data : string)
| Settled (ok : bool)
| InputFrame.

Definition input_enabled (st : input_state) (e : input_event) : bool :=
  match e with
  | Key _ _ => true
  | Settled _ => Nat.ltb 0 (in_flight st)
  | InputFrame => Nat.ltb 0 (frame_requests st)
  end.

Definition input_step (e : input_event) (st : input_state) : input_state :=
  match e with
  | Key now data => terminal_onData now data st
  | Settled _ => request_settled st
  | InputFrame => input_frame st
  end.

Fixpoint input_exec (tr : list input_event) (st : input_state)
    : option input_state :=
  match tr with
  | [] => Some st
  | e :: tr' =>
      if input_enabled st e then input_exec tr' (input_step e st) else None
  end.

(** Keystrokes arriving [INPUT_DEBOUNCE_MS] apart, from time [t] on. *)
Fixpoint keys_from (t : Z) (ks : list string) : list input_event :=
  match ks with
  | [] => []
  | k :: ks' => Key t k :: keys_from (t + INPUT_DEBOUNCE_MS) ks'
  end.

(** [n] rounds of a request settling and the next frame. *)
Fixpoint drain (n : nat) : list input_event :=
  match n with
  | O => []
  | S n' => Settled true :: InputFrame :: drain n'
  end.

(** The flag mirrors the request in flight, and what was pushed is what
    was sent followed by what still waits. *)
Definition consistent (st : input_state) : Prop :=
  in_flight st = (if isProcessingInput st then 1 else 0)
  ∧ sent st ++ inputQueue st = pushed st.

(** A waiting entry is never stranded: a request is in flight or a frame
    is requested. *)
Definition progressing (st : input_state) : Prop :=
  inputQueue st ≠ [] → isProcessingInput st = true ∨ 0 < frame_requests st.

End Input.

(** *** The push channel of [connectTerminal] *)
Module Channel.

Inductive ready_state := CONNECTING | OPEN | CLOSED.

Global Instance ready_state_eq_dec : EqDecision ready_state.
Proof. solve_decision. Defined.

(** One call of [connectTerminal]: the [EventSource] it created and the
    variables of its closure. *)
Record connection := Connection {
  url_sid : string;
  readyState : ready_state;
  writeBuffer : string;
  writeTimer : bool
}.

(** Callbacks handed to [setTimeout]: the first connect of
    [initTerminal], its no-output warning, [flushBuffer] of a connection,
    and the reconnect of [onerror]. *)
Inductive callback :=
| CbStart
| CbWarn
| CbFlush (c : nat)
| CbReconnect.

Global Instance callback_eq_dec : EqDecision callback.
Proof. solve_decision. Defined.

(** Fixed messages written to the terminal. *)
Inductive note :=
| NConnectedWaiting
| NShellStarting
| NError (data : string)
| NSessionEnded
| NParseError
| NConnecting
| NClosedReconnecting
| NNoOutputWarning.

(** A [terminal.write]: buffered output of a connection, or a note. *)
Inductive screen_write :=
| SOut (c : nat) (text : string)
| SNote (n : note).

(** What [event.data] of a message is: a frame of the protocol, valid
    JSON of another type, or text on which the handler throws. *)
Inductive message :=
| MFrame (f : frame)
| MOther
| MGarbage.

(** The global [eventSource] is the last connection of [conns];
    [timeouts] are the pending [setTimeout] callbacks with their delays,
    [frame_callbacks] the pending render callbacks of
    [requestAnimationFrame] by connection; [received] logs the output
    payloads handled, by connection. *)
Record channel := MkChannel {
  terminalSessionId : string;
  sessionReady : bool;
  conns : list connection;
  timeouts : list (Z * callback);
  frame_callbacks : list nat;
  screen : list screen_write;
  received : list (nat * string)
}.

Definition BATCH_DELAY_MS : Z := 8.
Definition MAX_BUFFER_SIZE : nat := 4096.

(** [writeBuffer.length >= MAX_BUFFER_SIZE] *)
Definition buffer_full (b : string) : bool :=
  Nat.leb MAX_BUFFER_SIZE (String.length b).
Global Arguments buffer_full : simpl never.

(** The page after [initTerminal]: the first connect is due in 100 ms. *)
Definition page_init (sid : string) : channel :=
  {| terminalSessionId := sid; sessionReady := false; conns := [];
     timeouts := [(100%Z, CbStart)]; frame_callbacks := []; screen := [];
     received := [] |}.

Definition with_ready (b : bool) (st : channel) : channel :=
  {| terminalSessionId := terminalSessionId st; sessionReady := b;
     conns := conns st; timeouts := timeouts st;
     frame_callbacks := frame_callbacks st; screen := screen st;
     received := received st |}.

Definition with_conns (cs : list connection) (st : channel) : channel :=
  {| terminalSessionId := terminalSessionId st;
     sessionReady := sessionReady st;
     conns := cs; timeouts := timeouts st;
     frame_callbacks := frame_callbacks st; screen := screen st;
     received := received st |}.

Definition with_timeouts (ts : list (Z * callback)) (st : channel) : channel :=
  {| terminalSessionId := terminalSessionId st;
     sessionReady := sessionReady st;
     conns := conns st; timeouts := ts;
     frame_callbacks := frame_callbacks st; screen := screen st;
     received := received st |}.

Definition with_frame_callbacks (fs : list nat) (st : channel) : channel :=
  {| terminalSessionId := terminalSessionId st;
     sessionReady := sessionReady st;
     conns := conns st; timeouts := timeouts st;
     frame_callbacks := fs; screen := screen st;
     received := received st |}.

Definition write (w : screen_write) (st : channel) : channel :=
  {| terminalSessionId := terminalSessionId st;
     sessionReady := sessionReady st;
     conns := conns st; timeouts := timeouts st;
     frame_callbacks := frame_callbacks st; screen := screen st ++ [w];
     received := received st |}.

Definition log_received (c : nat) (d : string) (st : channel) : channel :=
  {| terminalSessionId := terminalSessionId st;
     sessionReady := sessionReady st;
     conns := conns st; timeouts := timeouts st;
     frame_callbacks := frame_callbacks st; screen := screen st;
     received := received st ++ [(c, d)] |}.

Definition set_readyState (rs : ready_state) (k : connection) : connection :=
  {| url_sid := url_sid k; readyState := rs;
     writeBuffer := writeBuffer k; writeTimer := writeTimer k |}.

Definition set_writeBuffer (b : string) (k : connection) : connection :=
  {| url_sid := url_sid k; readyState := readyState k;
     writeBuffer := b; writeTimer := writeTimer k |}.

Definition set_writeTimer (t : bool) (k : connection) : connection :=
  {| url_sid := url_sid k; readyState := readyState k;
     writeBuffer := writeBuffer k; writeTimer := t |}.

(** [clearTimeout] of the flush timer of connection [c]. *)
Definition clear_flush (c : nat) (ts : list (Z * callback))
    : list (Z * callback) :=
  filter (λ t, t.2 ≠ CbFlush c) ts.

(** [connectTerminal] *)
Definition connectTerminal (st : channel) : channel :=
  with_conns
    (conns st ++
       [{| url_sid := terminalSessionId st; readyState := CONNECTING;
           writeBuffer := ""; writeTimer := false |}])
    (with_ready false st).

(** [flushBuffer] of connection [c]: a non-empty buffer gets a render
    callback requested; a set timer is cleared. *)
Definition flushBuffer (c : nat) (st : channel) : channel :=
  match conns st !! c with
  | Some k =>
      let st1 :=
        if negb (String.eqb (writeBuffer k) "")
        then with_frame_callbacks (frame_callbacks st ++ [c]) st
        else st in
      if writeTimer k then
        with_conns (alter (set_writeTimer false) c (conns st1))
          (with_timeouts (clear_flush c (timeouts st1)) st1)
      else st1
  | None => st
  end.

(** [scheduleFlush] of connection [c]. *)
Definition scheduleFlush (c : nat) (st : channel) : channel :=
  match conns st !! c with
  | Some k =>
      if writeTimer k then st
      else
        with_conns (alter (set_writeTimer true) c (conns st))
          (with_timeouts (timeouts st ++ [(BATCH_DELAY_MS, CbFlush c)]) st)
  | None => st
  end.

(** The render callback of [flushBuffer]:
    [terminal.write(writeBuffer); writeBuffer = '']. *)
Definition render (c : nat) (st : channel) : channel :=
  match conns st !! c with
  | Some k =>
      with_conns (alter (set_writeBuffer "") c (conns st))
        (write (SOut c (writeBuffer k)) st)
  | None => st
  end.

(** [eventSource.close()], on the global [eventSource]. *)
Definition close_current (st : channel) : channel :=
  with_conns
    (alter (set_readyState CLOSED) (pred (length (conns st))) (conns st)) st.

(** [readyState] of the global [eventSource]. *)
Definition current_readyState (st : channel) : option ready_state :=
  readyState <$> conns st !! pred (length (conns st)).

(** [eventSource.onopen] of connection [c]. *)
Definition onopen (c : nat) (st : channel) : channel :=
  write (SNote NConnectedWaiting)
    (with_ready true
       (with_conns (alter (set_readyState OPEN) c (conns st)) st)).

(** [eventSource.onmessage] of connection [c]. *)
Definition onmessage (c : nat) (m : message) (st : channel) : channel :=
  match m with
  | MFrame (FOutput d) =>
      let st1 :=
        with_conns
          (alter (λ k, set_writeBuffer (writeBuffer k +:+ d) k) c (conns st))
          (log_received c d (with_ready true st)) in
      match conns st1 !! c with
      | Some k =>
          if buffer_full (writeBuffer k)
          then flushBuffer c st1
          else scheduleFlush c st1
      | None => st1
      end
  | MFrame FConnected => write (SNote NShellStarting) (with_ready true st)
  | MFrame (FError d) => write (SNote (NError d)) (flushBuffer c st)
  | MFrame (FExit _ _) =>
      close_current
        (with_ready false (write (SNote NSessionEnded) (flushBuffer c st)))
  | MOther => st
  | MGarbage => write (SNote NParseError) (flushBuffer c st)
  end.

(** [eventSource.onerror] of connection [c], after the transport has
    moved it to [CONNECTING] (it retries by itself) or to [CLOSED]. *)
Definition onerror (c : nat) (closed : bool) (st : channel) : channel :=
  let st0 :=
    with_conns
      (alter (set_readyState (if closed then CLOSED else CONNECTING)) c
         (conns st)) st in
  let st1 := flushBuffer c st0 in
  match current_readyState st1 with
  | Some CONNECTING => write (SNote NConnecting) st1
  | Some CLOSED =>
      with_timeouts (timeouts st1 ++ [(1000%Z, CbReconnect)])
        (with_ready false (write (SNote NClosedReconnecting) st1))
  | _ => st1
  end.

(** The listeners each [connectTerminal] adds for [focus] and for
    [visibilitychange]: [flushBuffer] of every connection made so far. *)
Definition flush_all (st : channel) : channel :=
  foldl (λ s c, flushBuffer c s) st (seq 0 (length (conns st))).

(** A timeout callback runs. *)
Definition run_callback (cb : callback) (st : channel) : channel :=
  match cb with
  | CbStart =>
      let st1 := connectTerminal st in
      with_timeouts (timeouts st1 ++ [(2000%Z, CbWarn)]) st1
  | CbWarn =>
      if sessionReady st then st else write (SNote NNoOutputWarning) st
  | CbFlush c => flushBuffer c st
  | CbReconnect => connectTerminal st
  end.

Definition fire_timeout (i : nat) (st : channel) : channel :=
  match timeouts st !! i with
  | Some (_, cb) => run_callback cb (with_timeouts (delete i (timeouts st)) st)
  | None => st
  end.

Definition render_frame (st : channel) : channel :=
  match frame_callbacks st with
  | c :: rest => render c (with_frame_callbacks rest st)
  | [] => st
  end.

Inductive channel_event :=
| EsOpen (c : nat)
| EsMessage (c : nat) (m : message)
| EsError (c : nat) (closed : bool)
| TimerFires (i : nat)
| RenderFrame
| Focus
| VisibilityChange (hidden : bool).

Definition state_of (st : channel) (c : nat) : option ready_state :=
  readyState <$> conns st !! c.

(** An [EventSource] opens from [CONNECTING], receives messages while
    [OPEN], and gets no event once [CLOSED]. *)
Definition channel_enabled (st : channel) (e : channel_event) : bool :=
  match e with
  | EsOpen c => bool_decide (state_of st c = Some CONNECTING)
  | EsMessage c _ => bool_decide (state_of st c = Some OPEN)
  | EsError c _ =>
      bool_decide (state_of st c = Some CONNECTING)
      || bool_decide (state_of st c = Some OPEN)
  | TimerFires i => bool_decide (i < length (timeouts st))
  | RenderFrame => negb (Nat.eqb (length (frame_callbacks st)) 0)
  | Focus => true
  | VisibilityChange _ => true
  end.

Definition channel_step (e : channel_event) (st : channel) : channel :=
  match e with
  | EsOpen c => onopen c st
  | EsMessage c m => onmessage c m st
  | EsError c closed => onerror c closed st
  | TimerFires i => fire_timeout i st
  | RenderFrame => render_frame st
  | Focus => flush_all st
  | VisibilityChange hidden => if hidden then st else flush_all st
  end.

Fixpoint channel_exec (tr : list channel_event) (st : channel)
    : option channel :=
  match tr with
  | [] => Some st
  | e :: tr' =>
      if channel_enabled st e then channel_exec tr' (channel_step e st)
      else None
  end.

(** A callback that opens a connection. *)
Definition connects (cb : callback) : bool :=
  match cb with
  | CbStart | CbReconnect => true
  | _ => false
  end.

(** The part of the state the connection life cycle depends on: for each
    connection its URL id and [readyState], and the pending callbacks
    that open a connection. *)
Definition links (st : channel) : list (string * ready_state) :=
  (λ k, (url_sid k, readyState k)) <$> conns st.

Definition pending_connects (st : channel) : list (Z * callback) :=
  filter (λ t, connects t.2 = true) (timeouts st).

(** Only the latest connection can be alive, every connection uses the
    page's session id, at most one connect is pending and then no
    connection is alive, and a pending reconnect is due in 1000 ms. *)
Record tidy (st : channel) : Prop := Tidy {
  tidy_old : ∀ i k, links st !! i = Some k → S i < length (links st) →
             k.2 = CLOSED;
  tidy_sid : ∀ i k, links st !! i = Some k → k.1 = terminalSessionId st;
  tidy_one : length (pending_connects st) ≤ 1;
  tidy_idle : pending_connects st ≠ [] → Forall (λ k, k.2 = CLOSED) (links st);
  tidy_delay : ∀ d, (d, CbReconnect) ∈ pending_connects st → d = 1000%Z
}.

(** Every connection is closed and no connect is pending. *)
Definition dead (st : channel) : Prop :=
  Forall (λ k, k.2 = CLOSED) (links st) ∧ pending_connects st = [].

(** Two states with the same session id, connections (up to buffers and
    flush timers) and pending connects. *)
Definition same_links (st st' : channel) : Prop :=
  terminalSessionId st' = terminalSessionId st
  ∧ links st' = links st
  ∧ pending_connects st' = pending_connects st.




(** A connection with buffered output has a render callback requested
    or its flush timer set, and a set flush timer is pending. *)
Definition flushing_at (st : channel) (c : nat) (k : connection) : Prop :=
  (writeBuffer k ≠ "" → c ∈ frame_callbacks st ∨ writeTimer k = true)
  ∧ (writeTimer k = true → ∃ d, (d, CbFlush c) ∈ timeouts st).

Definition flushing (st : channel) : Prop :=
  ∀ c k, conns st !! c = Some k → flushing_at st c k.

Definition flushing_except (c0 : nat) (st : channel) : Prop :=
  ∀ c k, c ≠ c0 → conns st !! c = Some k → flushing_at st c k.



(** The first connection, opened. *)
Definition tr_open : list channel_event := [TimerFires 0; EsOpen 0].
Definition st_open : channel := default (page_init "s1") (channel_exec tr_open (page_init "s1")).

(** A session that ran and ended: connect, open, exit frame. *)
Definition tr_exit : list channel_event :=
  [TimerFires 0; EsOpen 0; EsMessage 0 (MFrame (FExit 0 None))].
Definition st_exit : channel := default (page_init "s1") (channel_exec tr_exit (page_init "s1")).

End Channel.

(** ** The file endpoints of [server.js] *)
Module Files.
Import Server.

(** What a call into the platform does: it returns or it throws. *)
Inductive outcome (A : Type) :=
| Returns (a : A)
| Throws (message : string).
Global Arguments Returns {A} a.
Global Arguments Throws {A} message.

(** A [Dirent] of [readdirSync(dir, { withFileTypes: true })]. *)
Record dirent := Dirent { d_name : string; isDirectory : bool }.

(** The platform modules the endpoints call, [fs] and [path], over a type
    of file-system states.  Arguments are passed as the handlers pass
    them, whatever their type; [writeFileSync] gives the state after the
    call and the message of what it threw, if it did. *)
Class FileSystem (fs : Type) := {
  readdirSync : fs → jsval → outcome (list dirent);
  readFileSync : fs → jsval → outcome string;
  writeFileSync : fs → jsval → jsval → fs * option string;
  path_join : jsval → string → outcome string
}.

(** The one law assumed of a file system: a text written under a path
    name is what reading that path name then gives. *)
Class FileSystemLaws (fs : Type) `{FileSystem fs} := {
  read_after_write : ∀ (f f' : fs) (p s : string),
    writeFileSync f (JStr p) (JStr s) = (f', None) →
    readFileSync f' (JStr p) = Returns s
}.

(** One element of the listing. *)
Record entry := Entry { e_name : string; e_type : string; e_path : string }.

Inductive file_reply :=
| ListReply (files : list entry)
| ContentReply (content : string)
| SavedReply
| ErrorReply (status : nat) (error : string).

(** The [map] over the directory entries; a throwing [path.join] ends it. *)
Fixpoint list_entries `{FileSystem fs} (dir : jsval) (ds : list dirent)
    : outcome (list entry) :=
  match ds with
  | [] => Returns []
  | d :: ds' =>
      match path_join dir (d_name d) with
      | Throws m => Throws m
      | Returns p =>
          match list_entries dir ds' with
          | Throws m => Throws m
          | Returns es =>
              Returns
                ({| e_name := d_name d;
                    e_type := if isDirectory d then "directory" else "file";
                    e_path := p |} :: es)
          end
      end
  end.

(** [GET /api/files], given [req.query.path]. *)
Definition files_handler `{FileSystem fs} (f : fs) (query_path : jsval)
    : file_reply :=
  let dir := if truthy query_path then query_path else JStr "." in
  match readdirSync f dir with
  | Throws m => ErrorReply 500 m
  | Returns ds =>
      match list_entries dir ds with
      | Throws m => ErrorReply 500 m
      | Returns es => ListReply es
      end
  end.

(** [GET /api/files/content], given [req.query.path]. *)
Definition content_handler `{FileSystem fs} (f : fs) (query_path : jsval)
    : file_reply :=
  if negb (truthy query_path) then ErrorReply 400 "Path required"
  else
    match readFileSync f query_path with
    | Returns content => ContentReply content
    | Throws m => ErrorReply 500 m
    end.

(** [content === undefined] *)
Definition is_undefined (v : jsval) : bool :=
  match v with
  | JUndefined => true
  | _ => false
  end.

(** [POST /api/files/save], given the parsed body. *)
Definition save_handler `{FileSystem fs} (f : fs) (b : gmap string jsval)
    : fs * file_reply :=
  let filePath := field b "path" in
  let content := field b "content" in
  if negb (truthy filePath) || is_undefined content then
    (f, ErrorReply 400 "Path and content required")
  else
    match writeFileSync f filePath content with
    | (f', None) => (f', SavedReply)
    | (f', Some m) => (f', ErrorReply 500 m)
    end.

(** The body of a reply as the client parses it ([res.json()]); a
    listing is an array, not an object with fields. *)
Definition reply_fields (r : file_reply) : gmap string jsval :=
  match r with
  | ListReply _ => ∅
  | ContentReply content => {[ "content" := JStr content ]}
  | SavedReply => {[ "success" := JBool true ]}
  | ErrorReply _ error => {[ "error" := JStr error ]}
  end.

(** A file system with nothing but text files under their path names,
    listed under ["."]; used to run the endpoints on examples. *)
Definition flat_fs := gmap string string.

Global Instance flat_fs_system : FileSystem flat_fs := {|
  readdirSync f dir :=
    match dir with
    | JStr "." => Returns ((λ kv, Dirent kv.1 false) <$> map_to_list f)
    | _ => Throws "ENOTDIR"
    end;
  readFileSync f p :=
    match p with
    | JStr name =>
        match f !! name with
        | Some s => Returns s
        | None => Throws "ENOENT"
        end
    | _ => Throws "ERR_INVALID_ARG_TYPE"
    end;
  writeFileSync f p c :=
    match p, c with
    | JStr name, JStr s => (<[name := s]> f, None)
    | _, _ => (f, Some "ERR_INVALID_ARG_TYPE")
    end;
  path_join dir name :=
    match dir with
    | JStr "." => Returns name
    | JStr d => Returns (d +:+ "/" +:+ name)
    | _ => Throws "ERR_INVALID_ARG_TYPE"
    end
|}.

(** A file system that can be read like [flat_fs] and refuses every
    write. *)
Record read_only := ReadOnly { ro_files : flat_fs }.

Global Instance read_only_system : FileSystem read_only := {|
  readdirSync f dir := readdirSync (ro_files f) dir;
  readFileSync f p := readFileSync (ro_files f) p;
  writeFileSync f p c := (f, Some "EROFS: read-only file system");
  path_join dir name := path_join (fs := flat_fs) dir name
|}.

End Files.

(** ** The editor side of the client: [public/app.js] *)
Module Editor.
Import Server.

(** A string stands for a JavaScript string of code units below 256. *)

(** [s.split('.')]: the pieces between the dots, never an empty list. *)
Fixpoint split_dot (s : string) : list string :=
  match s with
  | EmptyString => [""]
  | String c s' =>
      if Ascii.eqb c "."%char then "" :: split_dot s'
      else
        match split_dot s' with
        | piece :: rest => String c piece :: rest
        | [] => [String c ""]
        end
  end.

(** [.pop()] of a list that is not empty. *)
Definition pop (l : list string) : string := List.last l "".

(** [toLowerCase] on one code unit below 256: the capital letters of
    ASCII and of Latin-1 (all of 192..222 but the multiplication sign). *)
Definition lower_unit (c : Ascii.ascii) : Ascii.ascii :=
  let n := Ascii.nat_of_ascii c in
  if (Nat.leb 65 n && Nat.leb n 90)
     || (Nat.leb 192 n && Nat.leb n 222 && negb (Nat.eqb n 215))
  then Ascii.ascii_of_nat (n + 32)
  else c.

Fixpoint toLowerCase (s : string) : string :=
  match s with
  | EmptyString => EmptyString
  | String c s' => String (lower_unit c) (toLowerCase s')
  end.

(** What indexing [langMap] gives: a name of its own, something
    inherited from [Object.prototype] (the only inherited keys without a
    capital letter), or nothing. *)
Inductive lang_entry :=
| OwnName (name : string)
| Inherited (key : string)
| NoEntry.

Definition langMap (ext : string) : lang_entry :=
  if String.eqb ext "js" then OwnName "javascript"
  else if String.eqb ext "ts" then OwnName "typescript"
  else if String.eqb ext "py" then OwnName "python"
  else if String.eqb ext "html" then OwnName "html"
  else if String.eqb ext "css" then OwnName "css"
  else if String.eqb ext "json" then OwnName "json"
  else if String.eqb ext "md" then OwnName "markdown"
  else if String.eqb ext "java" then OwnName "java"
  else if String.eqb ext "cpp" then OwnName "cpp"
  else if String.eqb ext "c" then OwnName "c"
  else if String.eqb ext "go" then OwnName "go"
  else if String.eqb ext "rs" then OwnName "rust"
  else if String.eqb ext "php" then OwnName "php"
  else if String.eqb ext "rb" then OwnName "ruby"
  else if String.eqb ext "constructor" then Inherited "constructor"
  else if String.eqb ext "__proto__" then Inherited "__proto__"
  else NoEntry.

(** The value [getLanguageFromPath] returns: a language name, or the
    inherited object it found. *)
Inductive language :=
| Lang (name : string)
| NotAName (key : string).

(** [getLanguageFromPath]: [langMap[ext] || 'plaintext']. *)
Definition getLanguageFromPath (path : string) : language :=
  let ext := toLowerCase (pop (split_dot path)) in
  match langMap ext with
  | OwnName name => Lang name
  | Inherited key => NotAName key
  | NoEntry => Lang "plaintext"
  end.

(** The editor, the file it shows and what the page told the user. *)
Record editor := MkEditor {
  currentFilePath : option string;
  value : string;
  model_language : language;
  title : string;
  alerts : list string
}.

(** What a [fetch(...).then(res => res.json())] hands on: the fields of
    the parsed value, [null] (reading a field of it throws, with the
    message given), or the message of the error it failed with. *)
Inductive fetched :=
| Parsed (data : gmap string jsval)
| ParsedNull (message : string)
| Failed (message : string).

Definition alert (text : string) (ed : editor) : editor :=
  {| currentFilePath := currentFilePath ed; value := value ed;
     model_language := model_language ed; title := title ed;
     alerts := alerts ed ++ [text] |}.

Definition set_path (p : option string) (ed : editor) : editor :=
  {| currentFilePath := p; value := value ed;
     model_language := model_language ed; title := title ed;
     alerts := alerts ed |}.

(** [loadFile(filePath)] once its request settled.  [set_other] is what
    [editor.setValue] does with a value that is not a string: the new
    text, or the message of what it throws. *)
Definition loadFile (set_other : jsval → string → Files.outcome string)
    (filePath : string) (r : fetched) (ed : editor) : editor :=
  match r with
  | Failed message => alert ("Error loading file: " +:+ message) ed
  | ParsedNull message =>
      alert ("Error loading file: " +:+ message) (set_path (Some filePath) ed)
  | Parsed data =>
      let new_value :=
        match field data "content" with
        | JStr s => Files.Returns s
        | v => set_other v (value ed)
        end in
      match new_value with
      | Files.Returns s =>
          {| currentFilePath := Some filePath; value := s;
             model_language := getLanguageFromPath filePath;
             title := "HTTP/2 Editor - " +:+ filePath;
             alerts := alerts ed |}
      | Files.Throws message =>
          alert ("Error loading file: " +:+ message)
            (set_path (Some filePath) ed)
      end
  end.

(** The first part of [saveFile]: the path to save under, asking for a
    name when there is none ([answer] is what [prompt] returned), and the
    body of the request; nothing when the user gave no name. *)
Definition saveFile_request (answer : option string) (ed : editor)
    : editor * option (gmap string jsval) :=
  let named :=
    match currentFilePath ed with
    | Some p => if String.eqb p "" then None else Some p
    | None => None
    end in
  let target :=
    match named with
    | Some p => Some p
    | None =>
        match answer with
        | Some name => if String.eqb name "" then None else Some name
        | None => None
        end
    end in
  match target with
  | None => (ed, None)
  | Some p =>
      (set_path (Some p) ed,
       Some {[ "path" := JStr p; "content" := JStr (value ed) ]})
  end.

(** The second part of [saveFile], once the request settled. *)
Definition saveFile_settled (r : fetched) (ed : editor) : editor :=
  match r with
  | Failed message => alert ("Error saving file: " +:+ message) ed
  | ParsedNull message => alert ("Error saving file: " +:+ message) ed
  | Parsed data =>
      if truthy (field data "success")
      then alert "File saved successfully!" ed
      else ed
  end.


(** A save against the server: the request of [saveFile], the endpoint,
    and the reply handled. *)
Definition save_on_server `{Files.FileSystem fs} (answer : option string)
    (f : fs) (ed : editor) : fs * editor :=
  match saveFile_request answer ed with
  | (ed1, None) => (f, ed1)
  | (ed1, Some body) =>
      let '(f', reply) := Files.save_handler f body in
      (f', saveFile_settled (Parsed (Files.reply_fields reply)) ed1)
  end.

(** A load against the server: the endpoint and [loadFile] on its reply. *)
Definition load_from_server `{Files.FileSystem fs}
    (set_other : jsval → string → Files.outcome string)
    (filePath : string) (f : fs) (ed : editor) : editor :=
  loadFile set_other filePath
    (Parsed (Files.reply_fields (Files.content_handler f (JStr filePath)))) ed.

End Editor.

(** ** Start-up of the client: [waitForXterm] *)
Module Loader.

(** What a check finds: whether [Terminal] and [FitAddon] are defined. *)
Record libraries := Libraries { terminal_loaded : bool; fitaddon_loaded : bool }.

(** How the waiting ends, after a number of 50 ms timeouts: the callback
    is called (with or without [FitAddon]), or the user is alerted. *)
Inductive load_outcome :=
| Started (timeouts : nat) (with_fit : bool)
| GaveUp (timeouts : nat).

Definition POLL_MS : nat := 50.

(** [waitForXterm(callback, maxAttempts)], its check number [elapsed]
    being what [seen] shows. *)
Fixpoint waitForXterm (seen : nat → libraries) (elapsed maxAttempts : nat)
    : load_outcome :=
  if terminal_loaded (seen elapsed) && fitaddon_loaded (seen elapsed)
  then Started elapsed true
  else
    match maxAttempts with
    | S m => waitForXterm seen (S elapsed) m
    | O =>
        if terminal_loaded (seen elapsed) then Started elapsed false
        else GaveUp elapsed
    end.

Definition waited (o : load_outcome) : nat :=
  match o with
  | Started n _ => n
  | GaveUp n => n
  end.

(** A check finds both libraries. *)
Definition both (l : libraries) : bool :=
  terminal_loaded l && fitaddon_loaded l.

End Loader.

(** ** Telling the server the terminal size: [resizeTerminal] *)
Module Viewport.

(** The [cols] and [rows] of the terminal object, [None] for
    [undefined]; they are integers. *)
Record geometry := Geometry { t_cols : option Z; t_rows : option Z }.

(** The dimensions put in the request. *)
Definition fix_dims (cols rows : Z) : Z * Z :=
  if (cols =? 0)%Z || (rows =? 0)%Z || (cols <? 10)%Z || (rows <? 5)%Z
  then ((if (cols =? 0)%Z then 80%Z else cols),
        (if (rows =? 0)%Z then 24%Z else rows))
  else (cols, rows).

(** [resizeTerminal()] up to its [fetch]: the session id and body of the
    request it makes, if it makes one.  [terminal] is [None] before
    [initTerminal]; an id that is [null] or empty sends nothing. *)
Definition resizeTerminal (terminal : option geometry)
    (terminalSessionId : option string)
    : option (string * gmap string jsval) :=
  match terminal with
  | None => None
  | Some t =>
      match t_cols t, t_rows t with
      | Some cols, Some rows =>
          match terminalSessionId with
          | None => None
          | Some sid =>
              if String.eqb sid "" then None
              else
                let '(c, r) := fix_dims cols rows in
                Some (sid, {[ "cols" := JNum c; "rows" := JNum r ]})
          end
      | _, _ => None
      end
  end.

(** The resize as the server handles it. *)
Definition resize_on_server (terminal : option geometry)
    (terminalSessionId : option string) (pty_ok : bool)
    (st : Server.state) : Server.state * option Server.reply :=
  match resizeTerminal terminal terminalSessionId with
  | None => (st, None)
  | Some (sid, body) =>
      let '(st', reply) := Server.resize_handler sid body pty_ok st in
      (st', Some reply)
  end.

End Viewport.

(** ** Properties of the server *)
Module ServerProps.
Import Server.

(** *** Bookkeeping lemmas: what a step can do to each table *)

Lemma res_write_sessions r f st :
  terminalSessions (res_write r f st) = terminalSessions st
  ∧ heap (res_write r f st) = heap st
  ∧ procs (res_write r f st) = procs st
  ∧ timers (res_write r f st) = timers st
  ∧ effects (res_write r f st) = effects st.
Proof. unfold res_write. repeat case_match; done. Qed.

Lemma onData_frame p data st :
  terminalSessions (onData p data st) = terminalSessions st
  ∧ heap (onData p data st) = heap st
  ∧ procs (onData p data st) = procs st
  ∧ timers (onData p data st) = timers st
  ∧ effects (onData p data st) = effects st.
Proof.
  unfold onData. repeat case_match; try done; apply res_write_sessions.
Qed.

Lemma onExit_frame p c sg st :
  heap (onExit p c sg st) = heap st
  ∧ procs (onExit p c sg st) = procs st
  ∧ timers (onExit p c sg st) = timers st
  ∧ effects (onExit p c sg st) = effects st.
Proof.
  unfold onExit. repeat case_match; try done; simpl;
    destruct (res_write_sessions (p_res p0) (FExit c sg) st)
      as (_ & ? & ? & ? & ?); done.
Qed.

Lemma onExit_sessions p c sg st pr :
  procs st !! p = Some pr →
  terminalSessions (onExit p c sg st) = delete (p_sid pr) (terminalSessions st).
Proof.
  intros Hp. unfold onExit. rewrite Hp. case_match; simpl; [|done].
  by destruct (res_write_sessions (p_res pr) (FExit c sg) st) as (-> & _).
Qed.

Lemma on_close_frame r st :
  terminalSessions (on_close r st) = terminalSessions st
  ∧ procs (on_close r st) = procs st
  ∧ timers (on_close r st) = timers st
  ∧ effects (on_close r st) = effects st.
Proof. unfold on_close. repeat case_match; done. Qed.

Lemma on_close_heap r st a :
  pty <$> heap (on_close r st) !! a = pty <$> heap st !! a.
Proof.
  unfold on_close. repeat case_match; simpl; try done.
  rewrite list_lookup_alter. case_decide; [|done].
  subst. by destruct (heap st !! a).
Qed.

(** A step keeps every session object in place with the same process. *)
Lemma step_heap_pty e st a s :
  heap st !! a = Some s →
  ∃ s', heap (step e st) !! a = Some s' ∧ pty s' = pty s.
Proof.
  intros Ha. destruct e as [sid|r|p ch|p c sg|p|sid b ok|sid b ok]; simpl.
  - unfold attach. case_match; simpl.
    + rewrite list_lookup_alter. case_decide; subst; rewrite Ha; eauto.
    + exists s. split; [|done]. by apply lookup_app_l_Some.
  - pose proof (on_close_heap r st a) as H. rewrite Ha in H.
    destruct (heap (on_close r st) !! a) as [s'|]; simplify_eq/=. eauto.
  - destruct (onData_frame p ch st) as (_ & -> & _). eauto.
  - unfold exit_process.
    destruct (onExit_frame p c sg (with_procs (alter set_exited p (procs st)) st))
      as (-> & _). eauto.
  - eauto.
  - unfold input_handler. repeat case_match; simpl; eauto.
  - unfold resize_handler. repeat case_match; simpl; eauto.
Qed.

(** The process table only grows, and an entry keeps what its callbacks
    captured; an exited process never runs again. *)
Lemma step_procs e st p pr :
  procs st !! p = Some pr →
  ∃ pr', procs (step e st) !! p = Some pr'
         ∧ p_sid pr' = p_sid pr ∧ p_res pr' = p_res pr
         ∧ (running pr' = true → running pr = true).
Proof.
  intros Hp. destruct e as [sid|r|q ch|q c sg|q|sid b ok|sid b ok]; simpl.
  - unfold attach. case_match; simpl; [eauto|].
    exists pr. split; [|done]. by apply lookup_app_l_Some.
  - destruct (on_close_frame r st) as (_ & -> & _). eauto.
  - destruct (onData_frame q ch st) as (_ & _ & -> & _). eauto.
  - unfold exit_process.
    destruct (onExit_frame q c sg (with_procs (alter set_exited q (procs st)) st))
      as (_ & -> & _). simpl.
    rewrite list_lookup_alter. case_decide; subst; rewrite Hp; simpl; [|eauto].
    exists (set_exited pr). simpl. by intuition.
  - eauto.
  - unfold input_handler. repeat case_match; simpl; eauto.
  - unfold resize_handler. repeat case_match; simpl; eauto.
Qed.

(** Only the exit callback of a process registered under [sid] takes the
    entry of [sid] out of the map, and no step redirects it. *)
Lemma step_sessions e st sid a :
  terminalSessions st !! sid = Some a →
  terminalSessions (step e st) !! sid = Some a
  ∨ (terminalSessions (step e st) !! sid = None
     ∧ ∃ p c sg pr, e = Exit p c sg ∧ procs st !! p = Some pr ∧ p_sid pr = sid).
Proof.
  intros Hs. destruct e as [sid'|r|q ch|q c sg|q|sid' b ok|sid' b ok]; simpl.
  - left. unfold attach. case_match eqn:E; simpl; [done|].
    rewrite lookup_insert_ne; [done|]. intros ->. congruence.
  - left. by destruct (on_close_frame r st) as (-> & _).
  - left. by destruct (onData_frame q ch st) as (-> & _).
  - unfold exit_process. destruct (procs st !! q) as [pr|] eqn:Hq.
    + rewrite (onExit_sessions _ _ _ _ (set_exited pr)); simpl.
      2:{ rewrite list_lookup_alter_eq, Hq. done. }
      destruct (decide (p_sid pr = sid)) as [<-|Hne].
      * right. rewrite lookup_delete_eq. split; [done|]. by exists q, c, sg, pr.
      * left. by rewrite lookup_delete_ne.
    + left. unfold onExit. simpl. rewrite list_lookup_alter_eq, Hq. done.
  - by left.
  - left. unfold input_handler. repeat case_match; done.
  - left. unfold resize_handler. repeat case_match; done.
Qed.

Lemma inv_init : inv init.
Proof. split; simpl; intros; simplify_map_eq; done. Qed.

(** The invariant only looks at the map, the process table and the [pty]
    field of the session objects. *)
Lemma inv_ext st st' :
  terminalSessions st' = terminalSessions st →
  procs st' = procs st →
  (∀ a, pty <$> heap st' !! a = pty <$> heap st !! a) →
  inv st → inv st'.
Proof.
  intros Hm Hp Hh [Hreg Hrun]. split.
  - intros sid a Ha. rewrite Hm in Ha.
    destruct (Hreg _ _ Ha) as (s & pr & Hs & Hpr & ? & ?).
    specialize (Hh a). rewrite Hs in Hh.
    destruct (heap st' !! a) as [s'|] eqn:Hs'; simplify_eq/=.
    exists s', pr. rewrite Hp. replace (pty s') with (pty s). done.
  - intros p pr Hpr Hr. rewrite Hp in Hpr.
    destruct (Hrun _ _ Hpr Hr) as (a & s & Ha & Hs & ?).
    specialize (Hh a). rewrite Hs in Hh.
    destruct (heap st' !! a) as [s'|] eqn:Hs'; simplify_eq/=.
    exists a, s'. rewrite Hm. repeat split; congruence.
Qed.

Lemma inv_attach sid st : inv st → inv (attach sid st).
Proof.
  intros Hinv. unfold attach. destruct (terminalSessions st !! sid) as [a0|] eqn:E.
  - apply (inv_ext st); simpl; try done.
    intros a. rewrite list_lookup_alter. case_decide; [|done].
    subst. by destruct (heap st !! a).
  - destruct Hinv as [Hreg Hrun]. split; simpl.
    + intros sid' a Ha. destruct (decide (sid = sid')) as [->|Hne].
      * rewrite lookup_insert_eq in Ha. simplify_eq.
        eexists _, _. split; [apply list_lookup_middle; done|]. simpl.
        split; [apply list_lookup_middle; done|]. done.
      * rewrite lookup_insert_ne in Ha by done.
        destruct (Hreg _ _ Ha) as (s & pr & Hs & Hpr & ? & ?).
        exists s, pr. split_and!; try done; by apply lookup_app_l_Some.
    + intros p pr Hpr Hr. apply lookup_app_Some in Hpr as [Hpr|[Hge Hpr]].
      * destruct (Hrun _ _ Hpr Hr) as (a & s & Ha & Hs & ?).
        exists a, s. split_and!; [|by apply lookup_app_l_Some|done].
        rewrite lookup_insert_ne; [done|]. intros ->. congruence.
      * apply list_lookup_singleton_Some in Hpr as [Hz <-]. simpl.
        eexists _, _. rewrite lookup_insert_eq. split; [done|].
        split; [apply list_lookup_middle; done|]. simpl. lia.
Qed.

Lemma inv_exit p c sg st :
  inv st → is_running st p = true → inv (exit_process p c sg st).
Proof.
  intros [Hreg Hrun] Hen. unfold is_running in Hen.
  destruct (procs st !! p) as [prq|] eqn:Hq; [|done].
  destruct (Hrun _ _ Hq Hen) as (aq & sq & Haq & Hsq & Hptyq).
  unfold exit_process.
  destruct (onExit_frame p c sg (with_procs (alter set_exited p (procs st)) st))
    as (Hh & Hp & _).
  split; rewrite Hh, Hp, (onExit_sessions _ _ _ _ (set_exited prq));
    simpl; try (by rewrite list_lookup_alter_eq, Hq).
  - intros sid a Ha. apply lookup_delete_Some in Ha as [Hne Ha].
    destruct (Hreg _ _ Ha) as (s & pr & Hs & Hpr & Hsid & Hr).
    exists s, pr. split_and!; try done.
    rewrite list_lookup_alter_ne; [done|]. intros Heq. congruence.
  - intros p' pr' Hpr' Hr'.
    rewrite list_lookup_alter in Hpr'. case_decide as Hd.
    { subst. rewrite Hq in Hpr'. by simplify_eq/=. }
    destruct (Hrun _ _ Hpr' Hr') as (a & s & Ha & Hs & Hpty).
    exists a, s. split_and!; try done.
    rewrite lookup_delete_ne; [done|]. intros Heq. congruence.
Qed.

Lemma inv_step e st : inv st → enabled st e = true → inv (step e st).
Proof.
  intros Hinv Hen.
  destruct e as [sid|r|p ch|p c sg|p|sid b ok|sid b ok]; simpl in *.
  - by apply inv_attach.
  - destruct (on_close_frame r st) as (? & ? & _).
    apply (inv_ext st); auto using on_close_heap.
  - destruct (onData_frame p ch st) as (? & Hh & ? & _).
    apply (inv_ext st); auto. intros a. by rewrite Hh.
  - by apply inv_exit.
  - by apply (inv_ext st).
  - apply (inv_ext st); auto; unfold input_handler; repeat case_match; done.
  - apply (inv_ext st); auto; unfold resize_handler; repeat case_match; done.
Qed.

Lemma inv_exec tr : ∀ st st', inv st → exec tr st = Some st' → inv st'.
Proof.
  induction tr as [|e tr IH]; simpl; intros st st' Hinv Hex.
  - by simplify_eq.
  - destruct (enabled st e) eqn:Hen; [|done].
    eapply IH; [|done]. by apply inv_step.
Qed.

Lemma inv_reachable tr st : exec tr init = Some st → inv st.
Proof. apply inv_exec, inv_init. Qed.

(** *** Attach and detach *)

Lemma spawned_for_snoc sid st pr :
  length (filter (λ s, s = sid) (p_sid <$> (procs st ++ [pr])))
  = spawned_for sid st + (if decide (p_sid pr = sid) then 1 else 0).
Proof.
  unfold spawned_for. rewrite fmap_app, filter_app, length_app. simpl.
  rewrite filter_cons, filter_nil. by case_decide.
Qed.

Lemma spawned_for_exited sid p st :
  length (filter (λ s, s = sid) (p_sid <$> alter set_exited p (procs st)))
  = spawned_for sid st.
Proof.
  unfold spawned_for.
  rewrite (list_fmap_alter p_sid set_exited id) by (by apply Forall_true).
  by rewrite list_alter_id.
Qed.

(** A step other than an attach of an unregistered id spawns nothing. *)
Lemma step_spawned_for e st sid :
  is_Some (terminalSessions st !! sid) →
  spawned_for sid (step e st) = spawned_for sid st.
Proof.
  intros [a Ha].
  destruct e as [sid'|r|p ch|p c sg|p|sid' b ok|sid' b ok]; simpl.
  - unfold attach. destruct (terminalSessions st !! sid') eqn:E; [done|].
    unfold spawned_for at 1. simpl. rewrite spawned_for_snoc. simpl.
    case_decide; [congruence|lia].
  - unfold spawned_for. by destruct (on_close_frame r st) as (_ & -> & _).
  - unfold spawned_for. by destruct (onData_frame p ch st) as (_ & _ & -> & _).
  - unfold exit_process, spawned_for at 1.
    destruct (onExit_frame p c sg (with_procs (alter set_exited p (procs st)) st))
      as (_ & -> & _). simpl. apply spawned_for_exited.
  - done.
  - unfold input_handler. repeat case_match; done.
  - unfold resize_handler. repeat case_match; done.
Qed.

Lemma pty_of_Some st sid p :
  pty_of st sid = Some p ↔
  ∃ a s, terminalSessions st !! sid = Some a ∧ heap st !! a = Some s ∧ pty s = p.
Proof.
  unfold pty_of, get_session. split.
  - destruct (terminalSessions st !! sid) as [a|]; simpl; [|done].
    destruct (heap st !! a) as [s|] eqn:Hs; simpl; [|done].
    intros [= <-]. eauto.
  - intros (a & s & -> & Hs & <-). simpl. by rewrite Hs.
Qed.

(** A registered id loses its entry only to the exit of its own process. *)
Lemma step_removes_only_by_exit e st sid p :
  inv st → enabled st e = true → pty_of st sid = Some p →
  terminalSessions (step e st) !! sid = None →
  ∃ c sg, e = Exit p c sg.
Proof.
  intros Hinv Hen (a & s & Ha & Hs & Hpty)%pty_of_Some Hgone.
  destruct (step_sessions e st sid a Ha) as [Hkeep|(_ & q & c & sg & pr & -> & Hq & Hsid)];
    [congruence|].
  simpl in Hen. unfold is_running in Hen. rewrite Hq in Hen.
  destruct (inv_run _ Hinv _ _ Hq Hen) as (a' & s' & Ha' & Hs' & Hpty').
  exists c, sg. f_equal. congruence.
Qed.

(** Without that exit, the id keeps its process and nothing is spawned
    for it. *)
Lemma step_keeps_pty e st sid p :
  inv st → enabled st e = true → pty_of st sid = Some p →
  (∀ c sg, e ≠ Exit p c sg) →
  pty_of (step e st) sid = Some p
  ∧ spawned_for sid (step e st) = spawned_for sid st.
Proof.
  intros Hinv Hen Hp Hne. split.
  - pose proof Hp as (a & s & Ha & Hs & Hpty)%pty_of_Some.
    destruct (step_sessions e st sid a Ha) as [Hkeep|[Hgone _]].
    + destruct (step_heap_pty e st a s Hs) as (s' & Hs' & Hpty').
      apply pty_of_Some. exists a, s'. split_and!; [done|done|congruence].
    + destruct (step_removes_only_by_exit e st sid p) as (c & sg & ->); try done.
      by destruct (Hne c sg).
  - apply step_spawned_for. apply pty_of_Some in Hp as (a & _ & -> & _). eauto.
Qed.

Lemma exec_keeps_pty tr : ∀ st st' sid p,
  inv st → pty_of st sid = Some p →
  (∀ c sg, Exit p c sg ∉ tr) →
  exec tr st = Some st' →
  pty_of st' sid = Some p ∧ spawned_for sid st' = spawned_for sid st.
Proof.
  induction tr as [|e tr IH]; simpl; intros st st' sid p Hinv Hp Hno Hex.
  - by simplify_eq.
  - destruct (enabled st e) eqn:Hen; [|done].
    destruct (step_keeps_pty e st sid p) as [Hp' Hn']; try done.
    { intros c sg ->. apply (Hno c sg). left. }
    destruct (IH (step e st) st' sid p) as [? ?]; try done.
    { by apply inv_step. }
    { intros c sg Hin. apply (Hno c sg). by right. }
    split; [done|congruence].
Qed.

(** An id that was never attached is not registered. *)
Lemma step_keeps_unregistered e st sid :
  terminalSessions st !! sid = None → e ≠ Attach sid →
  terminalSessions (step e st) !! sid = None.
Proof.
  intros Hs Hne.
  destruct e as [sid'|r|q ch|q c sg|q|sid' b ok|sid' b ok]; simpl.
  - unfold attach. case_match; simpl; [done|].
    rewrite lookup_insert_ne; [done|]. intros ->. done.
  - by destruct (on_close_frame r st) as (-> & _).
  - by destruct (onData_frame q ch st) as (-> & _).
  - unfold exit_process, onExit. simpl. rewrite list_lookup_alter_eq.
    destruct (procs st !! q) as [pr|]; simpl; [|done].
    apply lookup_delete_None. right.
    case_match; simpl; [|done].
    by destruct (res_write_sessions (p_res pr) (FExit c sg)
                   (with_procs (alter set_exited q (procs st)) st)) as (-> & _).
  - done.
  - unfold input_handler. repeat case_match; done.
  - unfold resize_handler. repeat case_match; done.
Qed.

Lemma exec_keeps_unregistered tr : ∀ st st' sid,
  terminalSessions st !! sid = None → Attach sid ∉ tr →
  exec tr st = Some st' → terminalSessions st' !! sid = None.
Proof.
  induction tr as [|e tr IH]; simpl; intros st st' sid Hs Hno Hex.
  - by simplify_eq.
  - destruct (enabled st e); [|done].
    apply (IH (step e st)); [|by intros ?; apply Hno; right|done].
    apply step_keeps_unregistered; [done|]. intros ->. apply Hno. left.
Qed.

(** *** The session a close listener captured *)












(** C1 (as stated, fails).  Once the process of a session has exited, a
    further attach for the same id spawns a second process and binds the
    id to it: three attach calls for one id, on a flow the page itself
    produces (the client reconnects, the process exits, the client
    reconnects again), give two processes. *)
Lemma attach_after_exit_spawns_again :
  (∃ st, exec [Attach "s1"; Exit 0 0 None; Attach "s1"] init = Some st
         ∧ spawned_for "s1" st = 2
         ∧ pty_of st "s1" = Some 1
         ∧ effects st = [ESpawn 0 80 24; ESpawn 1 80 24])
  ∧ (∃ st, exec [Attach "s1"; Close 0; Attach "s1"; Exit 0 0 None; Close 1;
                 Attach "s1"] init = Some st
           ∧ spawned_for "s1" st = 2
           ∧ pty_of st "s1" = Some 1
           ∧ effects st = [ESpawn 0 80 24; ESpawn 1 80 24]).
Proof. split; eexists; vm_compute; repeat split. Qed.

(** C1 (amended).  In any state the server can reach: an id never
    attached before is not registered; an attach for an id that is
    not registered spawns exactly one process (one more entry in the
    process table, for that id, and one [ESpawn] call) and binds it to the
    id; an attach for a registered id spawns nothing and only rebinds
    [session.res] to the new response; and over any further run in which
    that process does not exit, whatever the number of attach calls in it,
    the id keeps the same process and no process is spawned for it. *)
Theorem attach_spawns_once tr0 st sid :
  exec tr0 init = Some st →
  (Attach sid ∉ tr0 → terminalSessions st !! sid = None)
  ∧ (terminalSessions st !! sid = None →
     procs (attach sid st) =
       procs st ++ [{| p_sid := sid; p_res := length (responses st);
                       running := true |}]
     ∧ effects (attach sid st) = effects st ++ [ESpawn (length (procs st)) 80 24]
     ∧ spawned_for sid (attach sid st) = S (spawned_for sid st)
     ∧ pty_of (attach sid st) sid = Some (length (procs st)))
  ∧ (∀ a, terminalSessions st !! sid = Some a →
       attach sid st = rebound a st
       ∧ sink_of (attach sid st) sid = Some (length (responses st)))
  ∧ (∀ p tr st', pty_of st sid = Some p →
       exec tr st = Some st' →
       (∀ c sg, Exit p c sg ∉ tr) →
       pty_of st' sid = Some p ∧ spawned_for sid st' = spawned_for sid st).
Proof.
  intros Hreach. pose proof (inv_reachable _ _ Hreach) as Hinv.
  split_and!.
  - intros Hno. by apply (exec_keeps_unregistered tr0 init st).
  - intros Hnone. unfold attach. rewrite Hnone. simpl. split_and!; try done.
    + unfold spawned_for at 1. simpl. rewrite spawned_for_snoc. simpl.
      case_decide; [lia|done].
    + apply pty_of_Some. eexists _, _. simpl. rewrite lookup_insert_eq.
      split; [done|]. split; [by apply list_lookup_middle|done].
  - intros a Ha. split.
    + unfold attach, rebound. by rewrite Ha.
    + destruct (inv_reg _ Hinv _ _ Ha) as (s & pr & Hs & _).
      unfold sink_of, get_session, attach. rewrite Ha. simpl.
      rewrite Ha. simpl. rewrite list_lookup_alter_eq, Hs. done.
  - intros p tr st' Hp Hex Hno. by eapply exec_keeps_pty.
Qed.


Lemma attach_spawns_once_witness :
  (pty_of (attach "s2" st_one) "s2" = Some 1
   ∧ spawned_for "s2" (attach "s2" st_one) = 1)
  ∧ sink_of (attach "s1" st_one) "s1" = Some 1
  ∧ (pty_of (default init (exec [Attach "s1"; Attach "s1"; Close 1; Attach "s1"] st_one)) "s1"
       = Some 0
     ∧ spawned_for "s1" (default init (exec [Attach "s1"; Attach "s1"; Close 1; Attach "s1"] st_one))
       = 1).
Proof.
  assert (Hr : exec tr_one init = Some st_one) by (vm_compute; reflexivity).
  destruct (attach_spawns_once tr_one st_one "s2" Hr) as (_ & H1 & _ & _).
  destruct (attach_spawns_once tr_one st_one "s1" Hr) as (_ & _ & H2 & H3).
  split_and!.
  - apply H1. vm_compute. reflexivity.
  - destruct H1 as (_ & _ & -> & _); vm_compute; reflexivity.
  - apply (H2 0). vm_compute. reflexivity.
  - apply (H3 0 [Attach "s1"; Attach "s1"; Close 1; Attach "s1"]).
    + vm_compute; reflexivity.
    + vm_compute; reflexivity.
    + intros c sg Hin. repeat (apply elem_of_cons in Hin as [Hin|Hin]; [discriminate|]).
      by apply elem_of_nil in Hin.
  - destruct (H3 0 [Attach "s1"; Attach "s1"; Close 1; Attach "s1"]
                (default init (exec [Attach "s1"; Attach "s1"; Close 1; Attach "s1"] st_one)))
      as [_ ->].
    + vm_compute; reflexivity.
    + vm_compute; reflexivity.
    + intros c sg Hin. repeat (apply elem_of_cons in Hin as [Hin|Hin]; [discriminate|]).
      by apply elem_of_nil in Hin.
    + vm_compute; reflexivity.
Defined.


(** *** Output and exit frames *)

(** Where the output callback of a process sends a chunk: its first
    response while that one is not destroyed, whatever [session.res] is. *)
Lemma onData_prefers_first_response p pr data st :
  procs st !! p = Some pr → res_live st (p_res pr) = true →
  onData p data st = res_write (p_res pr) (FOutput data) st.
Proof. intros Hp Hl. unfold onData. by rewrite Hp, Hl. Qed.

Lemma res_write_ended r f st o :
  responses st !! r = Some o → ended o = true → res_write r f st = st.
Proof. intros Ho He. unfold res_write. by rewrite Ho, He. Qed.

Lemma res_write_lookup r f st o :
  responses st !! r = Some o →
  ∃ o', responses (res_write r f st) !! r = Some o'
        ∧ destroyed o' = destroyed o.
Proof.
  intros Ho. unfold res_write. rewrite Ho.
  destruct (ended o || destroyed o); simpl; [eauto|].
  exists (add_frame f o). split; [|done].
  apply list_lookup_insert_eq. by eapply lookup_lt_Some.
Qed.

Lemma res_end_ended r st o :
  responses st !! r = Some o → ended o = true → res_end r st = st.
Proof.
  intros Ho He. unfold res_end. destruct st as [m h ps rs ts es]; simpl in *.
  unfold with_responses; simpl. f_equal.
  apply list_eq. intros i. rewrite list_lookup_alter.
  case_decide; [|done]. subst. rewrite Ho. simpl. f_equal.
  destruct o; simpl in *. by subst.
Qed.

(** Calling the exit callback a second time changes nothing more. *)
Lemma onExit_twice p c sg st :
  onExit p c sg (onExit p c sg st) = onExit p c sg st.
Proof.
  destruct (onExit_frame p c sg st) as (_ & Hps & _).
  unfold onExit at 1. rewrite Hps.
  destruct (procs st !! p) as [pr|] eqn:Hp; [|done].
  assert (Hdel : ∀ st', terminalSessions st' = terminalSessions (onExit p c sg st) →
            delete (p_sid pr) (terminalSessions st') = terminalSessions (onExit p c sg st)).
  { intros st' ->. rewrite (onExit_sessions _ _ _ _ pr) by done.
    by rewrite delete_delete_eq. }
  destruct (res_live (onExit p c sg st) (p_res pr)) eqn:Hl'.
  - assert (∃ o, responses (onExit p c sg st) !! p_res pr = Some o ∧ ended o = true)
      as (o & Ho & He).
    { unfold res_live in Hl'. unfold onExit in *. rewrite Hp in *.
      destruct (res_live st (p_res pr)) eqn:Hl; simpl in *.
      - unfold res_live in Hl.
        destruct (responses st !! p_res pr) as [o|] eqn:Ho; [|done].
        destruct (res_write_lookup (p_res pr) (FExit c sg) st o Ho) as (o' & Ho' & _).
        exists (set_ended o'). by rewrite list_lookup_alter_eq, Ho'.
      - unfold res_live in Hl. by rewrite Hl' in Hl. }
    rewrite (res_write_ended _ _ _ o), (res_end_ended _ _ o) by done.
    destruct (onExit p c sg st) as [m h ps rs ts es] eqn:E; simpl in *.
    unfold with_sessions; simpl. f_equal. by apply (Hdel (State m h ps rs ts es)).
  - destruct (onExit p c sg st) as [m h ps rs ts es] eqn:E; simpl in *.
    unfold with_sessions; simpl. f_equal. by apply (Hdel (State m h ps rs ts es)).
Qed.

Lemma sink_of_Some st sid r :
  sink_of st sid = Some r ↔
  ∃ s, get_session st sid = Some s ∧ res s = Some r.
Proof.
  unfold sink_of. destruct (get_session st sid) as [s|]; simpl.
  - split; [eauto|]. by intros (s' & [= <-] & ?).
  - split; [done|]. by intros (s' & ? & _).
Qed.

(** When the sink of the session is live and is the response the output
    callback closed over, or that response is destroyed, a chunk is
    written to the sink as one output frame. *)
Lemma onData_reaches_sink p pr r o data st :
  procs st !! p = Some pr →
  sink_of st (p_sid pr) = Some r →
  responses st !! r = Some o → destroyed o = false → ended o = false →
  r = p_res pr ∨ res_live st (p_res pr) = false →
  responses (onData p data st)
  = <[r := add_frame (FOutput data) o]> (responses st).
Proof.
  intros Hp (s & Hs & Hr)%sink_of_Some Ho Hd He Hor.
  assert (Hlive : res_live st r = true) by (unfold res_live; by rewrite Ho, Hd).
  assert (Hw : res_write r (FOutput data) st
               = with_responses (<[r := add_frame (FOutput data) o]> (responses st)) st).
  { unfold res_write. by rewrite Ho, Hd, He. }
  unfold onData. rewrite Hp.
  destruct (res_live st (p_res pr)) eqn:Hl0.
  - destruct Hor as [<-|?]; [|done]. by rewrite Hw.
  - by rewrite Hs, Hr, Hlive, Hw.
Qed.

(** Over such a window the sink receives the chunks the process emits,
    one frame each, in the order emitted. *)
Lemma chunks_reach_sink_in_order chunks : ∀ p pr r o st,
  procs st !! p = Some pr →
  sink_of st (p_sid pr) = Some r →
  responses st !! r = Some o → destroyed o = false → ended o = false →
  r = p_res pr ∨ res_live st (p_res pr) = false →
  frames_of (foldl (λ s d, onData p d s) st chunks) r
  = written o ++ (FOutput <$> chunks).
Proof.
  induction chunks as [|d chunks IH]; intros p pr r o st Hp Hs Ho Hd He Hor; simpl.
  - unfold frames_of. by rewrite Ho, app_nil_r.
  - pose proof (onData_reaches_sink p pr r o d st Hp Hs Ho Hd He Hor) as Hres.
    destruct (onData_frame p d st) as (Hm & Hh & Hps & _).
    pose proof (lookup_lt_Some _ _ _ Ho) as Hlt.
    rewrite (IH p pr r (add_frame (FOutput d) o)); simpl; try done.
    + by rewrite <- app_assoc.
    + by rewrite Hps.
    + unfold sink_of, get_session in *. by rewrite Hm, Hh.
    + rewrite Hres. by apply list_lookup_insert_eq.
    + destruct (decide (r = p_res pr)) as [|Hne]; [by left|right].
      destruct Hor as [|Hl0]; [done|].
      unfold res_live in *. rewrite Hres.
      by rewrite list_lookup_insert_ne.
Qed.

(** When the response the exit callback closed over is destroyed, the
    exit of the process writes to no response. *)
Lemma exit_silent_when_first_destroyed p pr c sg st :
  procs st !! p = Some pr → res_live st (p_res pr) = false →
  responses (exit_process p c sg st) = responses st.
Proof.
  intros Hp Hl. unfold exit_process, onExit. simpl.
  rewrite list_lookup_alter_eq, Hp. simpl.
  unfold res_live in *. simpl. by rewrite Hl.
Qed.

(** C3 (the code at the failing inputs).  With a second channel open for
    the id while the first response is not destroyed, the registered sink
    is response 1 and it is live, yet a chunk is written to response 0 and
    response 1 receives nothing; once the first connection then closes,
    its listener clears the sink of the session, and a chunk is written to
    no response at all although response 1 is still open. *)
Theorem output_misses_attached_sink :
  (exec tr_two_sinks init = Some st_two_sinks
   ∧ sink_of st_two_sinks "s1" = Some 1
   ∧ res_live st_two_sinks 1 = true
   ∧ enabled st_two_sinks (Data 0 "x") = true
   ∧ frames_of (step (Data 0 "x") st_two_sinks) 1 = [FConnected]
   ∧ frames_of (step (Data 0 "x") st_two_sinks) 0 = [FConnected; FOutput "x"])
  ∧ (exec tr_first_closed init = Some st_first_closed
     ∧ sink_of st_first_closed "s1" = None
     ∧ res_live st_first_closed 1 = true
     ∧ enabled st_first_closed (Data 0 "x") = true
     ∧ step (Data 0 "x") st_first_closed = st_first_closed).
Proof. vm_compute. repeat split. Qed.

(** C5 (the code at the failing input).  After a reconnect the attached
    sink is response 1, live; the process exits; no exit frame is written
    to response 1 (nor to any other), response 1 is not ended, and the
    session is removed from the registry. *)
Theorem exit_frame_misses_reattached_sink :
  exec tr_reattached init = Some st_reattached
  ∧ sink_of st_reattached "s1" = Some 1
  ∧ res_live st_reattached 1 = true
  ∧ enabled st_reattached (Exit 0 0 None) = true
  ∧ written <$> responses (step (Exit 0 0 None) st_reattached)
    = [[FConnected]; [FConnected]]
  ∧ ended <$> responses (step (Exit 0 0 None) st_reattached) = [false; false]
  ∧ terminalSessions (step (Exit 0 0 None) st_reattached) !! "s1" = None.
Proof. vm_compute. repeat split. Qed.

(** *** Input and resize requests *)

(** C6 (as stated, fails).  A resize with [cols = 0] and no [rows] for a
    registered id is passed to [resize] of the process as it is. *)
Lemma resize_forwards_unvalidated :
  dim_valid (JNum 0) = false ∧ dim_valid JUndefined = false
  ∧ ∀ ok, effects (fst (resize_handler "s1" {[ "cols" := JNum 0 ]} ok
                          (attach "s1" init)))
          = [ESpawn 0 80 24; EResize 0 (JNum 0) JUndefined].
Proof. split; [done|]. split; [done|]. intros ok. vm_compute. reflexivity. Qed.

(** C6 (amended).  For every resize request: when the id is registered,
    the server calls [resize] of the session's process with the [cols] and
    [rows] of the body exactly as received, with no validation; when the id
    is not in the registry, the reply is 404 and nothing changes, so no
    process is touched. *)
Theorem resize_forwards_as_received st sid b ok :
  (∀ a s, terminalSessions st !! sid = Some a → heap st !! a = Some s →
     fst (resize_handler sid b ok st)
     = add_effect (EResize (pty s) (field b "cols") (field b "rows")) st)
  ∧ (terminalSessions st !! sid = None →
     resize_handler sid b ok st = (st, Reply 404 (Failure "Session not found"))).
Proof.
  unfold resize_handler, get_session. split.
  - intros a s -> Hs. simpl. by rewrite Hs.
  - intros ->. done.
Qed.

Lemma resize_forwards_as_received_witness :
  fst (resize_handler "s1" {[ "cols" := JNum 120; "rows" := JNum 40 ]} true
         (attach "s1" init))
  = add_effect (EResize 0 (JNum 120) (JNum 40)) (attach "s1" init)
  ∧ resize_handler "s2" {[ "cols" := JNum 120; "rows" := JNum 40 ]} true
      (attach "s1" init)
    = (attach "s1" init, Reply 404 (Failure "Session not found")).
Proof.
  split.
  - etrans.
    + apply (proj1 (resize_forwards_as_received (attach "s1" init) "s1"
               {[ "cols" := JNum 120; "rows" := JNum 40 ]} true) 0
               {| pty := 0; res := Some 0 |}); vm_compute; reflexivity.
    + vm_compute; reflexivity.
  - apply (proj2 (resize_forwards_as_received (attach "s1" init) "s2"
             {[ "cols" := JNum 120; "rows" := JNum 40 ]} true)).
    vm_compute; reflexivity.
Defined.

(** C7 (as stated, fails).  The field is present, with the empty string,
    and the reply is 400. *)
Lemma input_400_with_field_present :
  ({[ "input" := JStr "" ]} : gmap string jsval) !! "input" = Some (JStr "")
  ∧ ∀ ok, snd (input_handler "s1" {[ "input" := JStr "" ]} ok (attach "s1" init))
          = Reply 400 (Failure "Input is required").
Proof. split; [done|]. intros ok. vm_compute. reflexivity. Qed.

(** C7 (amended).  For every input request: the reply is 400 if and only
    if the [input] field is missing or falsy (for a string: empty), and
    then nothing changes; when [input] is truthy and the id is registered,
    [write] of the session's process is called with that exact value, and
    the reply is success (500 when the call throws); when [input] is truthy
    and the id is not registered, the reply is 404 and nothing changes.
    Every request gets one of these replies. *)
Theorem input_reply_cases st sid b ok :
  (status (snd (input_handler sid b ok st)) = 400
     ↔ truthy (field b "input") = false)
  ∧ (∀ s, b !! "input" = Some (JStr s) →
       (status (snd (input_handler sid b ok st)) = 400 ↔ s = ""))
  ∧ (truthy (field b "input") = false →
       input_handler sid b ok st = (st, Reply 400 (Failure "Input is required")))
  ∧ (∀ a s, truthy (field b "input") = true →
       terminalSessions st !! sid = Some a → heap st !! a = Some s →
       input_handler sid b ok st
       = (add_effect (EWrite (pty s) (field b "input")) st,
          if ok then Reply 200 Success
          else Reply 500 (Failure "Failed to write to terminal")))
  ∧ (truthy (field b "input") = true → terminalSessions st !! sid = None →
       fst (input_handler sid b ok st) = st
       ∧ status (snd (input_handler sid b ok st)) = 404)
  ∧ status (snd (input_handler sid b ok st)) ∈ [200; 400; 404; 500].
Proof.
  assert (H400 : status (snd (input_handler sid b ok st)) = 400
                 ↔ truthy (field b "input") = false).
  { unfold input_handler.
    destruct (truthy (field b "input")); simpl; [|done].
    destruct (get_session st sid); simpl; [destruct ok|]; simpl; split; done. }
  split_and!.
  - done.
  - intros s Hs. rewrite H400. unfold field. rewrite Hs. simpl.
    destruct (String.eqb_spec s ""); simpl; split; (done || congruence).
  - intros Hf. unfold input_handler. by rewrite Hf.
  - intros a s Ht Ha Hs. unfold input_handler, get_session.
    rewrite Ht, Ha. simpl. by rewrite Hs.
  - intros Ht Ha. unfold input_handler, get_session. rewrite Ht, Ha. done.
  - unfold input_handler.
    destruct (truthy (field b "input")); simpl;
      [destruct (get_session st sid); simpl; [destruct ok|]|];
      apply list_elem_of_In; simpl; auto.
Qed.

Lemma input_reply_cases_witness :
  input_handler "s1" {[ "input" := JStr "ls" ]} true (attach "s1" init)
  = (add_effect (EWrite 0 (JStr "ls")) (attach "s1" init), Reply 200 Success)
  ∧ input_handler "s1" ∅ true (attach "s1" init)
    = (attach "s1" init, Reply 400 (Failure "Input is required"))
  ∧ status (snd (input_handler "s2" {[ "input" := JStr "ls" ]} true
                   (attach "s1" init))) = 404.
Proof.
  split_and!.
  - destruct (input_reply_cases (attach "s1" init) "s1" {[ "input" := JStr "ls" ]} true)
      as (_ & _ & _ & H & _).
    etrans; [apply (H 0 {| pty := 0; res := Some 0 |})|]; vm_compute; reflexivity.
  - destruct (input_reply_cases (attach "s1" init) "s1" ∅ true) as (_ & _ & H & _).
    apply H. vm_compute; reflexivity.
  - destruct (input_reply_cases (attach "s1" init) "s2" {[ "input" := JStr "ls" ]} true)
      as (_ & _ & _ & _ & H & _).
    apply H; vm_compute; reflexivity.
Defined.

(** C10.  An input request whose [input] field is present and equal to the
    empty string is answered 400 and changes nothing, so nothing is passed
    to the process; and no input request ever passes the empty string to
    [write] of a process. *)
Theorem empty_input_rejected st sid b ok :
  (b !! "input" = Some (JStr "") →
     input_handler sid b ok st = (st, Reply 400 (Failure "Input is required")))
  ∧ (∀ p, effects (fst (input_handler sid b ok st))
          ≠ effects st ++ [EWrite p (JStr "")]).
Proof.
  split.
  - intros Hb. unfold input_handler, field. by rewrite Hb.
  - intros p. unfold input_handler.
    destruct (truthy (field b "input")) eqn:Ht; simpl.
    + destruct (get_session st sid); simpl.
      * intros [_ Hv]%app_inj_tail. injection Hv as _ Hv.
        rewrite Hv in Ht. done.
      * intros H. apply (f_equal length) in H. rewrite length_app in H.
        simpl in H. lia.
    + intros H. apply (f_equal length) in H. rewrite length_app in H.
      simpl in H. lia.
Qed.

Lemma empty_input_rejected_witness :
  input_handler "s1" {[ "input" := JStr "" ]} true (attach "s1" init)
  = (attach "s1" init, Reply 400 (Failure "Input is required")).
Proof.
  apply (proj1 (empty_input_rejected (attach "s1" init) "s1"
                  {[ "input" := JStr "" ]} true)).
  vm_compute; reflexivity.
Defined.

End ServerProps.

(** ** Properties of the client input queue *)
Module InputProps.
Import Input.

Lemma processInputQueue_busy st :
  isProcessingInput st = true → processInputQueue st = st.
Proof. intros H. unfold processInputQueue. by rewrite H. Qed.

Lemma processInputQueue_empty st :
  inputQueue st = [] → processInputQueue st = st.
Proof.
  intros H. unfold processInputQueue. rewrite H. simpl.
  by rewrite orb_true_r.
Qed.

Lemma processInputQueue_send st x rest :
  isProcessingInput st = false → inputQueue st = x :: rest →
  processInputQueue st =
    {| inputQueue := rest; isProcessingInput := true;
       lastInputTime := lastInputTime st;
       frame_requests := frame_requests st;
       in_flight := S (in_flight st);
       sent := sent st ++ [x];
       pushed := pushed st |}.
Proof. intros Hp Hq. unfold processInputQueue. by rewrite Hp, Hq. Qed.

Lemma processInputQueue_consistent st :
  consistent st →
  consistent (processInputQueue st)
  ∧ (inputQueue st ≠ [] → isProcessingInput (processInputQueue st) = true)
  ∧ (inputQueue (processInputQueue st) ≠ [] → inputQueue st ≠ []).
Proof.
  intros [Hf Hq].
  destruct (isProcessingInput st) eqn:Hp.
  { rewrite processInputQueue_busy by done. unfold consistent. by rewrite Hp. }
  destruct (inputQueue st) as [|x rest] eqn:Hi.
  { rewrite processInputQueue_empty by done. unfold consistent.
    by rewrite Hp, Hi. }
  rewrite (processInputQueue_send st x rest) by done.
  split_and!; try done.
  split; simpl; [lia|]. by rewrite <- Hq, <- app_assoc.
Qed.

Lemma consistent_step e st :
  consistent st → progressing st → input_enabled st e = true →
  consistent (input_step e st) ∧ progressing (input_step e st).
Proof.
  intros Hc Hpr Hen. pose proof Hc as [Hf Hq].
  destruct e as [now data|ok|]; simpl in *.
  - unfold terminal_onData. destruct (debounced now data st); [done|].
    set (st1 := {| inputQueue := inputQueue st ++ [data] |}).
    assert (Hc1 : consistent st1).
    { split; simpl; [done|]. by rewrite app_assoc, Hq. }
    destruct (processInputQueue_consistent st1 Hc1) as (Hc2 & Hp2 & _).
    simpl. destruct (isProcessingInput st) eqn:Hp; simpl.
    + split; [done|]. intros _. left. done.
    + split; [done|]. intros _. left. apply Hp2. simpl.
      by destruct (inputQueue st).
  - apply Nat.ltb_lt in Hen. unfold request_settled. split.
    + split; simpl; [|done]. destruct (isProcessingInput st); lia.
    + intros Hne. simpl in *. right.
      destruct (inputQueue st); [done|]. simpl. lia.
  - apply Nat.ltb_lt in Hen. unfold input_frame.
    set (st1 := {| inputQueue := inputQueue st |}).
    assert (Hc1 : consistent st1) by done.
    destruct (processInputQueue_consistent st1 Hc1) as (Hc2 & Hp2 & Hne2).
    split; [done|]. intros Hne. left. apply Hp2, Hne2, Hne.
Qed.

Lemma consistent_exec tr : ∀ st st',
  consistent st → progressing st → input_exec tr st = Some st' →
  consistent st' ∧ progressing st'.
Proof.
  induction tr as [|e tr IH]; simpl; intros st st' Hc Hp Hex.
  - by simplify_eq.
  - destruct (input_enabled st e) eqn:Hen; [|done].
    destruct (consistent_step e st) as [? ?]; try done.
    by apply (IH (input_step e st)).
Qed.

(** A step sends nothing, or sends one entry, and then only with no
    request in flight before and exactly one after. *)
Lemma step_sends_at_most_one e st :
  consistent st →
  sent (input_step e st) = sent st
  ∨ (in_flight st = 0 ∧ in_flight (input_step e st) = 1
     ∧ ∃ x, sent (input_step e st) = sent st ++ [x]
            ∧ pushed (input_step e st) = sent st ++ [x] ++ inputQueue (input_step e st)).
Proof.
  intros [Hf Hq].
  assert (Hproc : ∀ st1, consistent st1 →
            sent (processInputQueue st1) = sent st1
            ∨ (in_flight st1 = 0 ∧ in_flight (processInputQueue st1) = 1
               ∧ ∃ x, sent (processInputQueue st1) = sent st1 ++ [x]
                      ∧ pushed (processInputQueue st1)
                        = sent st1 ++ [x] ++ inputQueue (processInputQueue st1))).
  { intros st1 [Hf1 Hq1].
    destruct (isProcessingInput st1) eqn:Hp.
    { left. by rewrite processInputQueue_busy. }
    destruct (inputQueue st1) as [|x rest] eqn:Hi.
    { left. by rewrite processInputQueue_empty. }
    right. rewrite (processInputQueue_send st1 x rest) by done. simpl.
    split_and!; [done|lia|]. exists x. by rewrite <- Hq1. }
  destruct e as [now data|ok|]; simpl.
  - unfold terminal_onData. destruct (debounced now data st); [by left|].
    set (st1 := {| inputQueue := inputQueue st ++ [data] |}).
    assert (Hc1 : consistent st1).
    { split; simpl; [done|]. by rewrite app_assoc, Hq. }
    simpl. destruct (isProcessingInput st); simpl; [by left|].
    apply (Hproc st1 Hc1).
  - by left.
  - unfold input_frame.
    set (st1 := {| inputQueue := inputQueue st |}).
    apply (Hproc st1). done.
Qed.

(** Keystrokes [INPUT_DEBOUNCE_MS] apart that arrive while a request is
    being processed are all queued, in order. *)
Lemma keys_queue_up ks : ∀ t st,
  isProcessingInput st = true → (lastInputTime st + INPUT_DEBOUNCE_MS <= t)%Z →
  ∃ st', input_exec (keys_from t ks) st = Some st'
         ∧ inputQueue st' = inputQueue st ++ ks
         ∧ pushed st' = pushed st ++ ks
         ∧ sent st' = sent st
         ∧ in_flight st' = in_flight st
         ∧ isProcessingInput st' = true.
Proof.
  induction ks as [|k ks IH]; simpl; intros t st Hp Ht.
  - exists st. by rewrite !app_nil_r.
  - unfold terminal_onData, debounced.
    replace (t - lastInputTime st <? INPUT_DEBOUNCE_MS)%Z with false
      by (symmetry; apply Z.ltb_ge; lia).
    simpl. rewrite Hp. simpl.
    match goal with
    | |- ∃ st', input_exec _ ?s = _ ∧ _ =>
        destruct (IH (t + INPUT_DEBOUNCE_MS)%Z s)
          as (st' & Hex & Hq & Hpu & Hs & Hf & Hp')
    end; [done|simpl; unfold INPUT_DEBOUNCE_MS; lia|].
    exists st'. simpl in *. rewrite Hq, Hpu, <- !app_assoc. done.
Qed.

(** With a request in flight, the drain sends the whole queue in order,
    one request per round, each after the previous one settled. *)
Lemma drain_sends_queue q : ∀ st,
  inputQueue st = q → isProcessingInput st = true → in_flight st = 1 →
  ∃ st', input_exec (drain (length q) ++ [Settled true]) st = Some st'
         ∧ sent st' = sent st ++ q
         ∧ inputQueue st' = []
         ∧ in_flight st' = 0
         ∧ pushed st' = pushed st.
Proof.
  induction q as [|x q IH]; intros st Hq Hp Hf; simpl.
  - rewrite Hf. simpl. exists (request_settled st). split; [done|]. simpl.
    rewrite app_nil_r, Hq, Hf. done.
  - rewrite Hf. simpl. rewrite Hq. simpl.
    unfold input_frame, processInputQueue. simpl. rewrite Hq. simpl.
    match goal with
    | |- ∃ st', input_exec _ ?s = _ ∧ _ =>
        destruct (IH s) as (st' & Hex & Hs & Hi & Hfl & Hpu)
    end; [done|done|simpl; lia|].
    exists st'. simpl in *. rewrite Hs, <- app_assoc. done.
Qed.

(** C4.  In every state the input queue can reach: at most one input
    request is in flight, and it is in flight exactly while the flag is
    up; the entries sent so far followed by the entries still queued are
    the entries pushed, in push order; a step sends at most one entry, and
    only when no request is in flight; a queued entry always has a request
    in flight or a frame requested to process it.  And for any N+1
    keystrokes, the first sent at once and the others queued before it
    completes, N rounds of settle-then-frame and a last settle send them
    all, in the order they were typed. *)
Theorem input_fifo_one_in_flight tr st :
  input_exec tr input_init = Some st →
  in_flight st ≤ 1
  ∧ (isProcessingInput st = true ↔ in_flight st = 1)
  ∧ sent st ++ inputQueue st = pushed st
  ∧ (inputQueue st ≠ [] → in_flight st = 1 ∨ 0 < frame_requests st)
  ∧ (∀ e, sent (input_step e st) = sent st
          ∨ (in_flight st = 0 ∧ in_flight (input_step e st) = 1
             ∧ ∃ x, sent (input_step e st) = sent st ++ [x]
                    ∧ pushed (input_step e st) = sent st ++ [x] ++ inputQueue (input_step e st)))
  ∧ (∀ k ks, ∃ st1 st2,
       input_exec (keys_from INPUT_DEBOUNCE_MS (k :: ks)) input_init = Some st1
       ∧ sent st1 = [k] ∧ inputQueue st1 = ks ∧ in_flight st1 = 1
       ∧ input_exec (drain (length ks) ++ [Settled true]) st1 = Some st2
       ∧ sent st2 = k :: ks ∧ inputQueue st2 = [] ∧ in_flight st2 = 0).
Proof.
  intros Hex.
  destruct (consistent_exec tr input_init st) as [[Hf Hq] Hpr];
    [by split|by intros []|done|].
  split; [|split; [|split; [|split; [|split]]]].
  - destruct (isProcessingInput st); lia.
  - destruct (isProcessingInput st); split; (done || lia).
  - done.
  - intros Hne. destruct (Hpr Hne) as [Hp|?]; [|by right].
    left. by rewrite Hf, Hp.
  - intros e. by apply step_sends_at_most_one.
  - intros k ks. simpl.
    destruct (keys_queue_up ks (INPUT_DEBOUNCE_MS + INPUT_DEBOUNCE_MS)%Z
                (terminal_onData INPUT_DEBOUNCE_MS k input_init))
      as (st1 & Hex1 & Hq1 & Hpu1 & Hs1 & Hf1 & Hp1); [done|simpl; lia|].
    destruct (drain_sends_queue ks st1) as (st2 & Hex2 & Hs2 & Hq2 & Hf2 & _);
      [done|done|done|].
    exists st1, st2. split_and!; try done. by rewrite Hs2, Hs1.
Qed.

Lemma input_fifo_one_in_flight_witness :
  in_flight (default input_init (input_exec (keys_from 5 ["l"; "s"; "x"] ++ [Settled true]) input_init)) ≤ 1
  ∧ sent (default input_init (input_exec (keys_from 5 ["l"; "s"; "x"] ++ [Settled true]) input_init))
    ++ inputQueue (default input_init (input_exec (keys_from 5 ["l"; "s"; "x"] ++ [Settled true]) input_init))
    = ["l"; "s"; "x"].
Proof.
  destruct (input_fifo_one_in_flight (keys_from 5 ["l"; "s"; "x"] ++ [Settled true])
              (default input_init (input_exec (keys_from 5 ["l"; "s"; "x"] ++ [Settled true]) input_init)))
    as (H1 & _ & H3 & _).
  - vm_compute; reflexivity.
  - split; [exact H1|]. etrans; [exact H3|]. vm_compute; reflexivity.
Defined.

(** *** Debounce *)

(** An input of more than one code unit, or none, is never dropped. *)
Lemma multi_character_never_suppressed now data st :
  String.length data ≠ 1 →
  pushed (terminal_onData now data st) = pushed st ++ [data].
Proof.
  intros Hlen. unfold terminal_onData, debounced.
  replace (Nat.eqb (String.length data) 1) with false
    by (symmetry; by apply Nat.eqb_neq).
  rewrite andb_false_r. simpl.
  destruct (isProcessingInput st); simpl; [done|].
  unfold processInputQueue; simpl.
  destruct (inputQueue st); done.
Qed.

(** What is dropped: any input of one code unit less than
    [INPUT_DEBOUNCE_MS] after the last accepted one, equal to it or not. *)
Lemma suppressed_iff now data st :
  terminal_onData now data st = st ↔
  (now - lastInputTime st < INPUT_DEBOUNCE_MS)%Z ∧ String.length data = 1.
Proof.
  unfold terminal_onData, debounced. split.
  - destruct (now - lastInputTime st <? INPUT_DEBOUNCE_MS)%Z eqn:Ht;
      destruct (Nat.eqb (String.length data) 1) eqn:Hl; simpl.
    + intros _. split; [by apply Z.ltb_lt|by apply Nat.eqb_eq].
    + intros H. apply (f_equal (λ s, length (pushed s))) in H. revert H.
      destruct (isProcessingInput st); simpl; unfold processInputQueue; simpl;
        destruct (inputQueue st); simpl; rewrite length_app; simpl; lia.
    + intros H. apply (f_equal (λ s, length (pushed s))) in H. revert H.
      destruct (isProcessingInput st); simpl; unfold processInputQueue; simpl;
        destruct (inputQueue st); simpl; rewrite length_app; simpl; lia.
    + intros H. apply (f_equal (λ s, length (pushed s))) in H. revert H.
      destruct (isProcessingInput st); simpl; unfold processInputQueue; simpl;
        destruct (inputQueue st); simpl; rewrite length_app; simpl; lia.
  - intros [Ht Hl]. apply Z.ltb_lt in Ht. apply Nat.eqb_eq in Hl.
    by rewrite Ht, Hl.
Qed.

(** C8 (the code at the failing input).  "a" is typed at time 1000 and
    "b" at time 1002: the second input differs from the first and is
    dropped; only "a" is pushed and sent. *)
Theorem differing_input_suppressed :
  input_exec [Key 1000 "a"; Key 1002 "b"] input_init
  = Some (terminal_onData 1000 "a" input_init)
  ∧ pushed (terminal_onData 1002 "b" (terminal_onData 1000 "a" input_init)) = ["a"]
  ∧ sent (terminal_onData 1002 "b" (terminal_onData 1000 "a" input_init)) = ["a"]
  ∧ inputQueue (terminal_onData 1002 "b" (terminal_onData 1000 "a" input_init)) = [].
Proof. vm_compute. repeat split. Qed.

End InputProps.

(** ** Properties of the client push channel *)
Module ChannelProps.
Import Channel.

Lemma same_links_refl st : same_links st st.
Proof. done. Qed.

Lemma same_links_trans st1 st2 st3 :
  same_links st1 st2 → same_links st2 st3 → same_links st1 st3.
Proof. intros (? & ? & ?) (? & ? & ?). split_and!; congruence. Qed.

Lemma fmap_alter_same (g : connection → connection) (c : nat)
    (cs : list connection) :
  (∀ k, url_sid (g k) = url_sid k ∧ readyState (g k) = readyState k) →
  (λ k, (url_sid k, readyState k)) <$> alter g c cs
  = (λ k, (url_sid k, readyState k)) <$> cs.
Proof.
  intros Hg.
  rewrite (list_fmap_alter _ g id).
  - by rewrite list_alter_id.
  - apply Forall_true. intros k. simpl. by destruct (Hg k) as [-> ->].
Qed.

Lemma fmap_alter_readyState rs (c : nat) (cs : list connection) :
  (λ k, (url_sid k, readyState k)) <$> alter (set_readyState rs) c cs
  = alter (λ k, (k.1, rs)) c ((λ k, (url_sid k, readyState k)) <$> cs).
Proof. apply list_fmap_alter. by apply Forall_true. Qed.

Lemma filter_clear_flush c (ts : list (Z * callback)) :
  filter (λ t, connects t.2 = true) (clear_flush c ts)
  = filter (λ t, connects t.2 = true) ts.
Proof.
  unfold clear_flush. induction ts as [|[d cb] ts IH]; [done|].
  rewrite !filter_cons. simpl.
  destruct (decide (cb ≠ CbFlush c)) as [Hne|Heq].
  - rewrite filter_cons. simpl. case_decide; by rewrite IH.
  - apply dec_stable in Heq. subst. simpl. apply IH.
Qed.

Lemma filter_snoc_other (ts : list (Z * callback)) d cb :
  connects cb = false →
  filter (λ t, connects t.2 = true) (ts ++ [(d, cb)])
  = filter (λ t, connects t.2 = true) ts.
Proof.
  intros Hc. rewrite filter_app, filter_cons, filter_nil. simpl.
  case_decide; [congruence|]. by rewrite app_nil_r.
Qed.

Lemma filter_snoc_connect (ts : list (Z * callback)) d cb :
  connects cb = true →
  filter (λ t, connects t.2 = true) (ts ++ [(d, cb)])
  = filter (λ t, connects t.2 = true) ts ++ [(d, cb)].
Proof.
  intros Hc. rewrite filter_app, filter_cons, filter_nil. simpl.
  case_decide; [done|congruence].
Qed.

Lemma flushBuffer_same c st : same_links st (flushBuffer c st).
Proof.
  unfold flushBuffer, same_links, links, pending_connects.
  destruct (conns st !! c) as [k|]; [|done].
  destruct (negb (String.eqb (writeBuffer k) "")), (writeTimer k); simpl;
    rewrite ?filter_clear_flush, ?fmap_alter_same; done.
Qed.

Lemma scheduleFlush_same c st : same_links st (scheduleFlush c st).
Proof.
  unfold scheduleFlush, same_links, links, pending_connects.
  destruct (conns st !! c) as [k|]; [|done].
  destruct (writeTimer k); simpl;
    rewrite ?filter_snoc_other, ?fmap_alter_same; done.
Qed.

Lemma render_same c st : same_links st (render c st).
Proof.
  unfold render, same_links, links, pending_connects.
  destruct (conns st !! c) as [k|]; [|done]. simpl.
  rewrite ?fmap_alter_same; done.
Qed.

Lemma flush_all_same st : same_links st (flush_all st).
Proof.
  unfold flush_all. generalize (seq 0 (length (conns st))). intros l.
  revert st. induction l as [|c l IH]; intros st; simpl; [done|].
  eapply same_links_trans; [apply (flushBuffer_same c)|apply IH].
Qed.

Lemma animation_frame_same st : same_links st (render_frame st).
Proof.
  unfold render_frame. destruct (frame_callbacks st) as [|c rest]; [done|].
  apply (render_same c (with_frame_callbacks rest st)).
Qed.

(** An output, connected or error frame, or an unreadable message, does
    not touch the life cycle of any connection. *)
Lemma onmessage_same c m st :
  (∀ code sg, m ≠ MFrame (FExit code sg)) → same_links st (onmessage c m st).
Proof.
  intros Hne. destruct m as [[|d|d|code sg]| |]; simpl.
  - done.
  - set (st1 := with_conns _ _).
    assert (H1 : same_links st st1).
    { unfold same_links, links, pending_connects, st1. simpl.
      rewrite fmap_alter_same; done. }
    case_match; [|done].
    case_match; (eapply same_links_trans; [exact H1|]);
      [apply flushBuffer_same|apply scheduleFlush_same].
  - apply (flushBuffer_same c st).
  - by destruct (Hne code sg).
  - done.
  - apply (flushBuffer_same c st).
Qed.

Lemma tidy_same st st' : same_links st st' → tidy st → tidy st'.
Proof.
  intros (Hs & Hl & Hp) [H1 H2 H3 H4 H5].
  split; rewrite ?Hs, ?Hl, ?Hp; done.
Qed.

Lemma dead_same st st' : same_links st st' → dead st → dead st'.
Proof. intros (Hs & Hl & Hp) [H1 H2]. split; rewrite ?Hl, ?Hp; done. Qed.

Lemma state_of_links st c rs :
  state_of st c = Some rs ↔ ∃ u, links st !! c = Some (u, rs).
Proof.
  unfold state_of, links. rewrite list_lookup_fmap.
  destruct (conns st !! c) as [k|]; simpl; split.
  - intros [= <-]. eauto.
  - by intros (u & [= _ <-]).
  - done.
  - by intros (u & ?).
Qed.

(** A connection that is not closed is the latest one, and no connect
    is pending beside it. *)
Lemma tidy_alive_last st c u rs :
  tidy st → links st !! c = Some (u, rs) → rs ≠ CLOSED →
  S c = length (links st) ∧ pending_connects st = [].
Proof.
  intros Ht Hc Hrs. split.
  - pose proof (lookup_lt_Some _ _ _ Hc) as Hlt.
    destruct (decide (S c < length (links st))) as [Hlt'|]; [|lia].
    by destruct Hrs; apply (tidy_old _ Ht c (u, rs)).
  - destruct (pending_connects st) eqn:E; [done|].
    assert (Hall : Forall (λ k, k.2 = CLOSED) (links st)).
    { apply (tidy_idle _ Ht). by rewrite E. }
    rewrite Forall_lookup in Hall. by destruct Hrs; apply (Hall c (u, rs)).
Qed.

Lemma tidy_set_state st st' c u rs0 rs :
  tidy st → links st !! c = Some (u, rs0) → rs0 ≠ CLOSED →
  terminalSessionId st' = terminalSessionId st →
  links st' = alter (λ k, (k.1, rs)) c (links st) →
  pending_connects st' = [] →
  tidy st'.
Proof.
  intros Ht Hc Hrs Hs Hl Hp.
  destruct (tidy_alive_last st c u rs0 Ht Hc Hrs) as [Hlast _].
  split; rewrite ?Hs, ?Hl, ?Hp, ?length_alter.
  - intros i k Hi Hlt. rewrite list_lookup_alter_ne in Hi by lia.
    by apply (tidy_old _ Ht i).
  - intros i k Hi. rewrite list_lookup_alter in Hi.
    case_decide; [|by apply (tidy_sid _ Ht i)].
    subst. rewrite Hc in Hi. simplify_eq/=.
    apply (tidy_sid _ Ht i (u, rs0) Hc).
  - simpl; lia.
  - done.
  - intros d Hin. by apply elem_of_nil in Hin.
Qed.

(** Closing a connection never breaks the invariant. *)
Lemma tidy_close st st' i :
  tidy st →
  terminalSessionId st' = terminalSessionId st →
  links st' = alter (λ k, (k.1, CLOSED)) i (links st) →
  pending_connects st' = pending_connects st →
  tidy st'.
Proof.
  intros Ht Hs Hl Hp.
  split; rewrite ?Hs, ?Hl, ?Hp, ?length_alter.
  - intros j k Hj Hlt. rewrite list_lookup_alter in Hj.
    case_decide; [|by apply (tidy_old _ Ht j)].
    subst. destruct (links st !! j); by simplify_eq/=.
  - intros j k Hj. rewrite list_lookup_alter in Hj.
    case_decide; [|by apply (tidy_sid _ Ht j)].
    subst. destruct (links st !! j) as [k0|] eqn:E; simplify_eq/=.
    apply (tidy_sid _ Ht j k0 E).
  - apply (tidy_one _ Ht).
  - intros Hne. pose proof (tidy_idle _ Ht Hne) as Hall.
    rewrite Forall_lookup in Hall |- *. intros j k Hj.
    rewrite list_lookup_alter in Hj. case_decide; [|by eapply Hall].
    subst. destruct (links st !! j); by simplify_eq/=.
  - apply (tidy_delay _ Ht).
Qed.

Lemma filter_nonempty (ts : list (Z * callback)) t :
  t ∈ ts → connects t.2 = true →
  filter (λ t, connects t.2 = true) ts ≠ [].
Proof.
  intros Hin Hc Hnil.
  assert (t ∈ filter (λ t, connects t.2 = true) ts) as Hin'
    by (by apply list_elem_of_filter).
  rewrite Hnil in Hin'. by apply elem_of_nil in Hin'.
Qed.

Lemma pending_delete_connect (ts : list (Z * callback)) : ∀ i t,
  ts !! i = Some t → connects t.2 = true →
  length (filter (λ t, connects t.2 = true) ts) ≤ 1 →
  filter (λ t, connects t.2 = true) (delete i ts) = [].
Proof.
  induction ts as [|t0 ts IH]; intros i t Hi Hc Hlen; [done|].
  rewrite filter_cons in Hlen. destruct i as [|i]; simpl in *.
  - simplify_eq. case_decide; [|done]. simpl in Hlen.
    destruct (filter _ ts); [done|simpl in Hlen; lia].
  - rewrite filter_cons. case_decide.
    + simpl in Hlen.
      destruct (filter_nonempty ts t); [by eapply list_elem_of_lookup_2|done|].
      destruct (filter _ ts); [done|simpl in Hlen; lia].
    + by apply (IH i t).
Qed.

Lemma pending_delete_other (ts : list (Z * callback)) : ∀ i t,
  ts !! i = Some t → connects t.2 = false →
  filter (λ t, connects t.2 = true) (delete i ts)
  = filter (λ t, connects t.2 = true) ts.
Proof.
  induction ts as [|t0 ts IH]; intros i t Hi Hc; [done|].
  destruct i as [|i]; simpl in *.
  - simplify_eq. rewrite filter_cons. case_decide; [congruence|done].
  - rewrite !filter_cons. case_decide; by rewrite (IH i t).
Qed.

(** Opening a connection when a connect callback fires. *)
Lemma tidy_connect st i d cb :
  tidy st → timeouts st !! i = Some (d, cb) → connects cb = true →
  tidy (connectTerminal (with_timeouts (delete i (timeouts st)) st))
  ∧ pending_connects (connectTerminal (with_timeouts (delete i (timeouts st)) st)) = [].
Proof.
  intros Ht Hi Hc.
  assert (Hp : pending_connects
                 (connectTerminal (with_timeouts (delete i (timeouts st)) st)) = []).
  { unfold pending_connects. simpl.
    apply (pending_delete_connect _ i (d, cb)); [done|done|apply (tidy_one _ Ht)]. }
  split; [|done].
  assert (Hall : Forall (λ k, k.2 = CLOSED) (links st)).
  { apply (tidy_idle _ Ht). apply (filter_nonempty _ (d, cb)); [|done].
    by eapply list_elem_of_lookup_2. }
  assert (Hl : links (connectTerminal (with_timeouts (delete i (timeouts st)) st))
               = links st ++ [(terminalSessionId st, CONNECTING)]).
  { unfold links. simpl. by rewrite fmap_app. }
  split; rewrite ?Hl, ?Hp.
  - intros j k Hj Hlt. rewrite length_app in Hlt. simpl in Hlt.
    rewrite lookup_app_l in Hj by lia.
    rewrite Forall_lookup in Hall. by eapply Hall.
  - intros j k Hj. simpl. apply lookup_app_Some in Hj as [Hj|[_ Hj]].
    + by apply (tidy_sid _ Ht j).
    + apply list_lookup_singleton_Some in Hj as [_ <-]. done.
  - simpl. lia.
  - done.
  - intros d' Hin. by apply elem_of_nil in Hin.
Qed.

Lemma current_links st :
  current_readyState st = snd <$> links st !! pred (length (links st)).
Proof.
  unfold current_readyState, links. rewrite length_fmap, list_lookup_fmap.
  by destruct (conns st !! pred (length (conns st))).
Qed.

Lemma enabled_error_alive st c closed :
  channel_enabled st (EsError c closed) = true →
  ∃ u rs, links st !! c = Some (u, rs) ∧ rs ≠ CLOSED.
Proof.
  simpl. intros [H|H]%orb_true_iff; apply bool_decide_eq_true in H;
    apply state_of_links in H as [u Hu]; exists u; eauto.
Qed.

(** What [onerror] sees after the transport moved connection [c], which
    was alive, to a new [readyState]: that state, [c] being the global
    [eventSource]. *)
Lemma onerror_current st c closed :
  tidy st → channel_enabled st (EsError c closed) = true →
  let st0 := with_conns
               (alter (set_readyState (if closed then CLOSED else CONNECTING)) c
                  (conns st)) st in
  links (flushBuffer c st0)
    = alter (λ k, (k.1, if closed then CLOSED else CONNECTING)) c (links st)
  ∧ pending_connects (flushBuffer c st0) = []
  ∧ terminalSessionId (flushBuffer c st0) = terminalSessionId st
  ∧ current_readyState (flushBuffer c st0)
    = Some (if closed then CLOSED else CONNECTING).
Proof.
  intros Ht Hen st0.
  destruct (enabled_error_alive st c closed Hen) as (u & rs & Hc & Hrs).
  destruct (tidy_alive_last st c u rs Ht Hc Hrs) as [Hlast Hp].
  destruct (flushBuffer_same c st0) as (Hs1 & Hl1 & Hp1).
  assert (Hl0 : links st0
                = alter (λ k, (k.1, if closed then CLOSED else CONNECTING)) c (links st)).
  { unfold links, st0. simpl. apply fmap_alter_readyState. }
  split_and!.
  - by rewrite Hl1.
  - by rewrite Hp1.
  - by rewrite Hs1.
  - rewrite current_links, Hl1, Hl0, length_alter, <- Hlast. simpl.
    by rewrite list_lookup_alter_eq, Hc.
Qed.

Lemma exit_or_not m :
  (∃ code sg, m = MFrame (FExit code sg))
  ∨ (∀ code sg, m ≠ MFrame (FExit code sg)).
Proof. destruct m as [[| | |code sg]| |]; eauto; right; done. Qed.

Lemma tidy_step e st : tidy st → channel_enabled st e = true → tidy (channel_step e st).
Proof.
  intros Ht Hen.
  destruct e as [c|c m|c closed|i| | |hidden].
  - (* open *)
    simpl in Hen. apply bool_decide_eq_true, state_of_links in Hen as [u Hu].
    destruct (tidy_alive_last st c u CONNECTING Ht Hu) as [_ Hp]; [done|].
    apply (tidy_set_state st _ c u CONNECTING OPEN); try done.
    unfold links. simpl. apply fmap_alter_readyState.
  - (* message *)
    destruct (exit_or_not m) as [(code & sg & ->)|Hne].
    + simpl. pose proof (flushBuffer_same c st) as Hsame.
      pose proof (tidy_same _ _ Hsame Ht) as Ht1.
      eapply (tidy_close (flushBuffer c st)); try done.
      unfold links. simpl. apply fmap_alter_readyState.
    + apply (tidy_same st); [|done]. by apply onmessage_same.
  - (* error *)
    destruct (enabled_error_alive st c closed Hen) as (u & rs & Hc & Hrs).
    destruct (tidy_alive_last st c u rs Ht Hc Hrs) as [Hlast Hp].
    destruct (onerror_current st c closed Ht Hen) as (Hl & Hp1 & Hs & Hcur).
    simpl. unfold onerror. rewrite Hcur. destruct closed.
    + split; unfold links, pending_connects in *; simpl;
        rewrite ?Hl, ?Hs, ?length_alter.
      * intros j k Hj Hlt. rewrite list_lookup_alter_ne in Hj by lia.
        by apply (tidy_old _ Ht j).
      * intros j k Hj. rewrite list_lookup_alter in Hj.
        case_decide; [|by apply (tidy_sid _ Ht j)].
        subst. unfold links in Hc. rewrite Hc in Hj. simplify_eq/=.
        apply (tidy_sid _ Ht j (u, rs) Hc).
      * rewrite filter_snoc_connect, Hp1 by done. simpl. lia.
      * intros _. rewrite Forall_lookup. intros j k Hj.
        rewrite list_lookup_alter in Hj. case_decide.
        { subst. unfold links in Hc. rewrite Hc in Hj. by simplify_eq/=. }
        apply (tidy_old _ Ht j k Hj).
        pose proof (lookup_lt_Some _ _ _ Hj). unfold links in *. lia.
      * intros d. rewrite filter_snoc_connect, Hp1 by done. simpl.
        intros [= ->]%list_elem_of_singleton. done.
    + apply (tidy_set_state st _ c u rs CONNECTING); done.
  - (* timeout *)
    simpl in Hen. apply bool_decide_eq_true in Hen.
    destruct (lookup_lt_is_Some_2 _ _ Hen) as [[d cb] Hi].
    simpl. unfold fire_timeout. rewrite Hi.
    destruct cb as [| |c|]; simpl.
    + destruct (tidy_connect st i d CbStart Ht Hi) as [Ht1 Hp1]; [done|].
      eapply tidy_same; [|exact Ht1].
      unfold same_links, links, pending_connects. simpl.
      split_and!; try done. by apply filter_snoc_other.
    + apply (tidy_same st); [|done].
      assert (same_links st (with_timeouts (delete i (timeouts st)) st)).
      { unfold same_links, links, pending_connects. simpl.
        split_and!; try done. by apply (pending_delete_other _ i (d, CbWarn)). }
      by destruct (sessionReady st).
    + apply (tidy_same st); [|done].
      eapply same_links_trans; [|apply flushBuffer_same].
      unfold same_links, links, pending_connects. simpl.
      split_and!; try done. by apply (pending_delete_other _ i (d, CbFlush c)).
    + by destruct (tidy_connect st i d CbReconnect Ht Hi).
  - apply (tidy_same st); [apply animation_frame_same|done].
  - apply (tidy_same st); [apply flush_all_same|done].
  - simpl. destruct hidden; [done|].
    apply (tidy_same st); [apply flush_all_same|done].
Qed.

Lemma tidy_init sid : tidy (page_init sid).
Proof.
  assert (Hp : pending_connects (page_init sid) = [(100%Z, CbStart)]) by done.
  split; rewrite ?Hp; simpl; try done;
    first [lia | by intros d [=]%list_elem_of_singleton].
Qed.

Lemma step_sid e st : terminalSessionId (channel_step e st) = terminalSessionId st.
Proof.
  destruct e as [c|c m|c closed|i| | |hidden]; simpl.
  - done.
  - destruct (exit_or_not m) as [(code & sg & ->)|Hne].
    + simpl. by destruct (flushBuffer_same c st) as (-> & _).
    + by apply onmessage_same.
  - unfold onerror.
    set (st0 := with_conns _ st).
    destruct (flushBuffer_same c st0) as (Hs & _).
    by destruct (current_readyState (flushBuffer c st0)) as [[| |]|].
  - unfold fire_timeout. destruct (timeouts st !! i) as [[d cb]|]; [|done].
    destruct cb as [| |c|]; simpl; try done.
    + by destruct (sessionReady st).
    + by destruct (flushBuffer_same c (with_timeouts (delete i (timeouts st)) st))
        as (-> & _).
  - apply animation_frame_same.
  - apply flush_all_same.
  - destruct hidden; [done|]. apply flush_all_same.
Qed.

Lemma tidy_exec tr : ∀ st st',
  tidy st → channel_exec tr st = Some st' →
  tidy st' ∧ terminalSessionId st' = terminalSessionId st.
Proof.
  induction tr as [|e tr IH]; simpl; intros st st' Ht Hex.
  - by simplify_eq.
  - destruct (channel_enabled st e) eqn:Hen; [|done].
    destruct (IH (channel_step e st) st') as [? Hs]; [by apply tidy_step|done|].
    split; [done|]. by rewrite Hs, step_sid.
Qed.

(** Once every connection is closed and no connect is pending, nothing
    opens a connection again. *)
Lemma dead_step e st :
  dead st → channel_enabled st e = true → same_links st (channel_step e st).
Proof.
  intros [Hall Hp] Hen. rewrite Forall_lookup in Hall.
  assert (Hno : ∀ c rs, state_of st c = Some rs → rs = CLOSED).
  { intros c rs [u Hu]%state_of_links. apply (Hall c (u, rs) Hu). }
  destruct e as [c|c m|c closed|i| | |hidden]; simpl in Hen.
  - apply bool_decide_eq_true in Hen. by apply Hno in Hen.
  - apply bool_decide_eq_true in Hen. by apply Hno in Hen.
  - apply orb_true_iff in Hen as [Hen|Hen];
      apply bool_decide_eq_true in Hen; by apply Hno in Hen.
  - apply bool_decide_eq_true in Hen.
    destruct (lookup_lt_is_Some_2 _ _ Hen) as [[d cb] Hi].
    assert (Hcb : connects cb = false).
    { destruct (connects cb) eqn:E; [|done].
      destruct (filter_nonempty (timeouts st) (d, cb)); try done.
      by eapply list_elem_of_lookup_2. }
    assert (Hdel : same_links st (with_timeouts (delete i (timeouts st)) st)).
    { unfold same_links, links, pending_connects. simpl.
      split_and!; try done. by apply (pending_delete_other _ i (d, cb)). }
    simpl. unfold fire_timeout. rewrite Hi.
    destruct cb as [| |c|]; simpl; try done.
    + by destruct (sessionReady st).
    + eapply same_links_trans; [exact Hdel|apply flushBuffer_same].
  - apply animation_frame_same.
  - apply flush_all_same.
  - simpl. destruct hidden; [apply same_links_refl|apply flush_all_same].
Qed.

Lemma dead_exec tr : ∀ st st',
  dead st → channel_exec tr st = Some st' → dead st' ∧ links st' = links st.
Proof.
  induction tr as [|e tr IH]; simpl; intros st st' Hd Hex.
  - by simplify_eq.
  - destruct (channel_enabled st e) eqn:Hen; [|done].
    pose proof (dead_step e st Hd Hen) as Hsame.
    destruct (IH (channel_step e st) st') as [? Hl]; [by eapply dead_same|done|].
    split; [done|]. rewrite Hl. by destruct Hsame as (_ & -> & _).
Qed.

(** C9 (as stated, fails).  The page connects, the channel opens, the
    exit frame arrives: the connection is closed, no reconnect is
    scheduled, and whatever happens afterwards the page still has that one
    closed connection; it never re-enters Connecting. *)
Lemma no_reconnect_after_exit :
  channel_exec tr_exit (page_init "s1") = Some st_exit
  ∧ state_of st_exit 0 = Some CLOSED
  ∧ timeouts st_exit = [(2000%Z, CbWarn)]
  ∧ ∀ tr st', channel_exec tr st_exit = Some st' → links st' = [("s1", CLOSED)].
Proof.
  split_and!; try (vm_compute; reflexivity).
  intros tr st' Hex.
  assert (Hd : dead st_exit).
  { split; [|vm_compute; reflexivity].
    replace (links st_exit) with [("s1", CLOSED)] by (vm_compute; reflexivity).
    by repeat constructor. }
  destruct (dead_exec tr st_exit st' Hd Hex) as [_ ->].
  vm_compute; reflexivity.
Qed.

(** C9 (amended).  In every state the page can reach: a transport error
    that leaves the connection closed marks the session not ready and
    schedules [connectTerminal] after 1000 ms, the same delay every time;
    a scheduled reconnect is always due in 1000 ms and, when it fires,
    opens a new connection in state CONNECTING with the page's session id;
    an exit frame closes the connection, marks the session not ready and
    schedules no reconnect, and from then on no connection is opened. *)
Theorem reconnect_after_closed_error sid tr st :
  channel_exec tr (page_init sid) = Some st →
  (∀ c, channel_enabled st (EsError c true) = true →
     state_of (channel_step (EsError c true) st) c = Some CLOSED
     ∧ sessionReady (channel_step (EsError c true) st) = false
     ∧ ∃ ts, timeouts (channel_step (EsError c true) st) = ts ++ [(1000%Z, CbReconnect)])
  ∧ (∀ i d, timeouts st !! i = Some (d, CbReconnect) →
       d = 1000%Z
       ∧ conns (channel_step (TimerFires i) st)
         = conns st ++ [{| url_sid := sid; readyState := CONNECTING;
                           writeBuffer := ""; writeTimer := false |}])
  ∧ (∀ c code sg,
       channel_enabled st (EsMessage c (MFrame (FExit code sg))) = true →
       state_of (channel_step (EsMessage c (MFrame (FExit code sg))) st) c = Some CLOSED
       ∧ sessionReady (channel_step (EsMessage c (MFrame (FExit code sg))) st) = false
       ∧ pending_connects (channel_step (EsMessage c (MFrame (FExit code sg))) st) = []
       ∧ ∀ tr' st',
           channel_exec tr' (channel_step (EsMessage c (MFrame (FExit code sg))) st) = Some st' →
           links st' = links (channel_step (EsMessage c (MFrame (FExit code sg))) st)
           ∧ pending_connects st' = []).
Proof.
  intros Hex.
  destruct (tidy_exec tr (page_init sid) st (tidy_init sid) Hex) as [Ht Hsid].
  simpl in Hsid. split_and!.
  - intros c Hen.
    destruct (enabled_error_alive st c true Hen) as (u & rs & Hc & Hrs).
    destruct (onerror_current st c true Ht Hen) as (Hl & Hp1 & Hs & Hcur).
    simpl. unfold onerror. rewrite Hcur. split_and!.
    + apply state_of_links. exists u. unfold links in *. simpl.
      rewrite Hl, list_lookup_alter_eq, Hc. done.
    + done.
    + simpl. eauto.
  - intros i d Hi. split.
    + apply (tidy_delay _ Ht). unfold pending_connects.
      apply list_elem_of_filter. split; [done|].
      by eapply list_elem_of_lookup_2.
    + simpl. unfold fire_timeout. rewrite Hi. simpl. by rewrite Hsid.
  - intros c code sg Hen.
    simpl in Hen. apply bool_decide_eq_true, state_of_links in Hen as [u Hu].
    destruct (tidy_alive_last st c u OPEN Ht Hu) as [Hlast Hp]; [done|].
    destruct (flushBuffer_same c st) as (Hs1 & Hl1 & Hp1).
    set (st1 := channel_step (EsMessage c (MFrame (FExit code sg))) st).
    assert (Hl : links st1 = alter (λ k, (k.1, CLOSED)) c (links st)).
    { unfold st1, links. simpl. rewrite fmap_alter_readyState.
      fold (links (flushBuffer c st)). rewrite Hl1.
      replace (pred (length (conns (flushBuffer c st)))) with c; [done|].
      replace (length (conns (flushBuffer c st)))
        with (length (links (flushBuffer c st)))
        by (unfold links; by rewrite length_fmap).
      rewrite Hl1. lia. }
    assert (Hpe : pending_connects st1 = []).
    { unfold st1, pending_connects. simpl.
      fold (pending_connects (flushBuffer c st)). by rewrite Hp1. }
    assert (Hd : dead st1).
    { split; [|done]. rewrite Hl, Forall_lookup. intros j k Hj.
      rewrite list_lookup_alter in Hj. case_decide.
      - subst. rewrite Hu in Hj. by simplify_eq/=.
      - apply (tidy_old _ Ht j k Hj).
        pose proof (lookup_lt_Some _ _ _ Hj). lia. }
    split_and!.
    + apply state_of_links. exists u. by rewrite Hl, list_lookup_alter_eq, Hu.
    + done.
    + done.
    + intros tr' st' Hex'.
      destruct (dead_exec tr' st1 st' Hd Hex') as [[_ Hp'] Hl']. done.
Qed.

Lemma reconnect_after_closed_error_witness :
  state_of (channel_step (EsError 0 true) st_open) 0 = Some CLOSED
  ∧ sessionReady (channel_step (EsError 0 true) st_open) = false
  ∧ ∃ ts, timeouts (channel_step (EsError 0 true) st_open) = ts ++ [(1000%Z, CbReconnect)].
Proof.
  assert (Hex : channel_exec tr_open (page_init "s1") = Some st_open) by (vm_compute; reflexivity).
  destruct (reconnect_after_closed_error "s1" tr_open st_open Hex) as (H & _ & _).
  apply (H 0). vm_compute; reflexivity.
Defined.

(** *** Output batching keeps the order of what is received *)



















(** *** Buffered output is always on its way to the terminal *)

Lemma flushing_weaken_except c0 st st' :
  (∀ c, c ≠ c0 → conns st' !! c = conns st !! c) →
  (∀ c, c ∈ frame_callbacks st → c ∈ frame_callbacks st') →
  (∀ c d, c ≠ c0 → (d, CbFlush c) ∈ timeouts st →
          ∃ d', (d', CbFlush c) ∈ timeouts st') →
  flushing_except c0 st → flushing_except c0 st'.
Proof.
  intros Hc Hf Ht H c k Hne Hk. rewrite Hc in Hk by done.
  destruct (H c k Hne Hk) as [H1 H2]. split.
  - intros Hb. destruct (H1 Hb) as [?|?]; [left; by apply Hf|by right].
  - intros Hw. destruct (H2 Hw) as [d Hd]. by apply (Ht c d).
Qed.

Lemma flushing_is_except c0 st : flushing st → flushing_except c0 st.
Proof. intros H c k _ Hk. by apply H. Qed.

Lemma flushBuffer_flushing c0 st :
  flushing_except c0 st → flushing (flushBuffer c0 st).
Proof.
  intros H. unfold flushBuffer.
  destruct (conns st !! c0) as [k0|] eqn:Hc0.
  2:{ intros c k Hk. apply H; [|done]. intros ->. congruence. }
  set (st1 := if negb (String.eqb (writeBuffer k0) "")
              then with_frame_callbacks (frame_callbacks st ++ [c0]) st
              else st).
  assert (Hconns1 : conns st1 = conns st)
    by (unfold st1; by destruct (negb (String.eqb (writeBuffer k0) ""))).
  assert (Hto1 : timeouts st1 = timeouts st)
    by (unfold st1; by destruct (negb (String.eqb (writeBuffer k0) ""))).
  assert (Hf1 : ∀ c, c ∈ frame_callbacks st → c ∈ frame_callbacks st1).
  { intros c Hin. unfold st1.
    destruct (negb (String.eqb (writeBuffer k0) "")); simpl; [|done].
    apply elem_of_app. by left. }
  assert (Hf0 : writeBuffer k0 ≠ "" → c0 ∈ frame_callbacks st1).
  { intros Hb. unfold st1.
    destruct (String.eqb_spec (writeBuffer k0) ""); [done|]. simpl.
    apply elem_of_app. right. by apply list_elem_of_singleton. }
  intros c k Hk.
  destruct (writeTimer k0) eqn:Hw0; simpl in *.
  - rewrite Hconns1, list_lookup_alter in Hk. case_decide.
    + subst. rewrite Hc0 in Hk. simplify_eq/=. split; simpl; [|done].
      intros Hb. left. by apply Hf0.
    + destruct (H c k) as [H1 H2]; [done|done|]. split; simpl.
      * intros Hb. destruct (H1 Hb) as [?|?]; [left; by apply Hf1|by right].
      * intros Hw. destruct (H2 Hw) as [d Hd]. exists d.
        rewrite Hto1. apply list_elem_of_filter. split; [|done].
        simpl. intros [= ->]. done.
  - rewrite Hconns1 in Hk. destruct (decide (c = c0)) as [->|Hne].
    + rewrite Hc0 in Hk. simplify_eq. split; [|congruence].
      intros Hb. left. by apply Hf0.
    + destruct (H c k) as [H1 H2]; [done|done|]. split.
      * intros Hb. destruct (H1 Hb) as [?|?]; [left; by apply Hf1|by right].
      * intros Hw. rewrite Hto1. by apply H2.
Qed.

Lemma scheduleFlush_flushing c0 st :
  flushing_except c0 st →
  (∀ k, conns st !! c0 = Some k → writeTimer k = true →
        ∃ d, (d, CbFlush c0) ∈ timeouts st) →
  flushing (scheduleFlush c0 st).
Proof.
  intros H Hc0. unfold scheduleFlush.
  destruct (conns st !! c0) as [k0|] eqn:E.
  2:{ intros c k Hk. apply H; [|done]. intros ->. congruence. }
  destruct (writeTimer k0) eqn:Hw0.
  - intros c k Hk. destruct (decide (c = c0)) as [->|Hne]; [|by apply H].
    rewrite E in Hk. simplify_eq. split; [by right|].
    intros _. by apply (Hc0 k).
  - intros c k Hk. simpl in *. rewrite list_lookup_alter in Hk. case_decide.
    + subst. rewrite E in Hk. simplify_eq/=. split; simpl; [by right|].
      intros _. exists BATCH_DELAY_MS. apply elem_of_app. right.
      by apply list_elem_of_singleton.
    + destruct (H c k) as [H1 H2]; [done|done|]. split; simpl; [done|].
      intros Hw. destruct (H2 Hw) as [d Hd]. exists d.
      apply elem_of_app. by left.
Qed.

Lemma flush_all_flushing st : flushing st → flushing (flush_all st).
Proof.
  unfold flush_all. generalize (seq 0 (length (conns st))). intros l.
  revert st. induction l as [|c l IH]; intros st H; simpl; [done|].
  apply IH. by apply flushBuffer_flushing, flushing_is_except.
Qed.

Lemma elem_of_delete_other (ts : list (Z * callback)) : ∀ i t x,
  ts !! i = Some t → x ∈ ts → x.2 ≠ t.2 → x ∈ delete i ts.
Proof.
  induction ts as [|t0 ts IH]; intros i t x Hi Hin Hne; [done|].
  destruct i as [|i]; simpl in *.
  - simplify_eq. apply elem_of_cons in Hin as [->|?]; done.
  - apply elem_of_cons in Hin as [->|Hin]; [by left|].
    right. by apply (IH i t).
Qed.

(** A change that keeps buffers and flush timers, only adds render
    callbacks and keeps the pending flush timers. *)
Lemma flushing_weaken st st' :
  (λ k, (writeBuffer k, writeTimer k)) <$> conns st'
  = (λ k, (writeBuffer k, writeTimer k)) <$> conns st →
  (∀ c, c ∈ frame_callbacks st → c ∈ frame_callbacks st') →
  (∀ c d, (d, CbFlush c) ∈ timeouts st → ∃ d', (d', CbFlush c) ∈ timeouts st') →
  flushing st → flushing st'.
Proof.
  intros Hv Hf Ht H c k' Hk'.
  assert ((λ k, (writeBuffer k, writeTimer k)) <$> conns st !! c
          = Some (writeBuffer k', writeTimer k')) as Hk.
  { by rewrite <- list_lookup_fmap, <- Hv, list_lookup_fmap, Hk'. }
  destruct (conns st !! c) as [k|] eqn:E; [|done].
  injection Hk as Hb Hw.
  destruct (H c k E) as [Hfl1 Hfl2].
  unfold flushing_at. rewrite <- Hb, <- Hw. split.
  - intros Hne. destruct (Hfl1 Hne) as [?|?]; [left; by apply Hf|by right].
  - intros Hw'. destruct (Hfl2 Hw') as [d Hd]. by apply (Ht c d).
Qed.

Lemma view_alter_readyState rs (c : nat) (cs : list connection) :
  (λ k, (writeBuffer k, writeTimer k)) <$> alter (set_readyState rs) c cs
  = (λ k, (writeBuffer k, writeTimer k)) <$> cs.
Proof.
  rewrite (list_fmap_alter _ (set_readyState rs) id).
  - by rewrite list_alter_id.
  - by apply Forall_true.
Qed.

Lemma flushing_connect st : flushing st → flushing (connectTerminal st).
Proof.
  intros H c k Hk. simpl in Hk.
  apply lookup_app_Some in Hk as [Hk|[_ Hk]]; [by apply (H c k)|].
  apply list_lookup_singleton_Some in Hk as [_ <-]. by split.
Qed.

Ltac weaken_from st0 :=
  apply (flushing_weaken st0); simpl;
  [ first [done | apply view_alter_readyState]
  | first [done | intros ? ?; apply elem_of_app; by left]
  | first [by eauto | intros ? d0 ?; exists d0; apply elem_of_app; by left]
  | ].

Lemma flushing_step e st :
  flushing st → channel_enabled st e = true → flushing (channel_step e st).
Proof.
  intros H Hen.
  destruct e as [c|c m|c closed|i| | |hidden]; simpl.
  - by weaken_from st.
  - destruct m as [[|d|d|code sg]| |]; simpl.
    + by weaken_from st.
    + set (st1 := with_conns _ _).
      assert (Hex : flushing_except c st1).
      { apply (flushing_weaken_except c st); simpl; eauto.
        - intros c' Hne. by rewrite list_lookup_alter_ne.
        - by apply flushing_is_except. }
      case_match eqn:E.
      2:{ intros c' k' Hk'. apply Hex; [|done]. intros ->. simpl in *. congruence. }
      case_match; [by apply flushBuffer_flushing|].
      apply scheduleFlush_flushing; [done|].
      intros k Hk Hw. simpl in Hk. rewrite list_lookup_alter_eq in Hk.
      destruct (conns st !! c) as [k0|] eqn:E0; simplify_eq/=.
      by apply (H c k0).
    + weaken_from (flushBuffer c st).
      by apply flushBuffer_flushing, flushing_is_except.
    + weaken_from (flushBuffer c st).
      by apply flushBuffer_flushing, flushing_is_except.
    + done.
    + weaken_from (flushBuffer c st).
      by apply flushBuffer_flushing, flushing_is_except.
  - unfold onerror. set (st0 := with_conns _ st).
    assert (H1 : flushing (flushBuffer c st0)).
    { apply flushBuffer_flushing, flushing_is_except. by weaken_from st. }
    destruct (current_readyState (flushBuffer c st0)) as [[| |]|]; try done.
    all: by weaken_from (flushBuffer c st0).
  - unfold fire_timeout. destruct (timeouts st !! i) as [[d cb]|] eqn:Hi; [|done].
    assert (Hdel : (∀ c, cb ≠ CbFlush c) →
              flushing (with_timeouts (delete i (timeouts st)) st)).
    { intros Hne. apply (flushing_weaken st); simpl; [done|done| |done].
      intros c' d' Hin. exists d'.
      apply (elem_of_delete_other _ i (d, cb)); [done|done|].
      simpl. intros Heq. by apply (Hne c'). }
    destruct cb as [| |c0|]; simpl.
    + weaken_from (connectTerminal (with_timeouts (delete i (timeouts st)) st)).
      by apply flushing_connect, Hdel.
    + destruct (sessionReady st); [by apply Hdel|].
      weaken_from (with_timeouts (delete i (timeouts st)) st).
      by apply Hdel.
    + apply flushBuffer_flushing.
      apply (flushing_weaken_except c0 st); simpl; [done|done| |].
      * intros c' d' Hne Hin. exists d'.
        apply (elem_of_delete_other _ i (d, CbFlush c0)); [done|done|].
        simpl. congruence.
      * by apply flushing_is_except.
    + by apply flushing_connect, Hdel.
  - unfold render_frame. destruct (frame_callbacks st) as [|c0 rest] eqn:E; [done|].
    unfold render. simpl.
    destruct (conns st !! c0) as [k0|] eqn:Hc0; simpl.
    + intros c k Hk. simpl in Hk. destruct (decide (c = c0)) as [->|Hne].
      * rewrite list_lookup_alter_eq, Hc0 in Hk. simplify_eq/=.
        split; simpl; [done|]. by apply (H c0 k0).
      * rewrite list_lookup_alter_ne in Hk by done.
        destruct (H c k Hk) as [Hfl1 Hfl2]. split; simpl; [|done].
        intros Hb. destruct (Hfl1 Hb) as [Hin|?]; [left|by right].
        rewrite E in Hin. apply elem_of_cons in Hin as [?|?]; done.
    + intros c k Hk. simpl in Hk. destruct (H c k Hk) as [Hfl1 Hfl2].
      split; simpl; [|done].
      intros Hb. destruct (Hfl1 Hb) as [Hin|?]; [left|by right].
      rewrite E in Hin. apply elem_of_cons in Hin as [->|?]; [congruence|done].
  - by apply flush_all_flushing.
  - destruct hidden; [done|]. by apply flush_all_flushing.
Qed.

(** On the client, at any time, a connection whose buffer holds output
    has a render callback requested or a flush timer pending. *)
Lemma client_buffer_on_its_way sid tr : ∀ st,
  channel_exec tr (page_init sid) = Some st → flushing st.
Proof.
  assert (Hgen : ∀ st0 st, flushing st0 → channel_exec tr st0 = Some st → flushing st).
  { induction tr as [|e tr IH]; simpl; intros st0 st Ho Hex.
    - by simplify_eq.
    - destruct (channel_enabled st0 e) eqn:Hen; [|done].
      eapply IH; [|done]. by apply flushing_step. }
  intros st. apply Hgen. intros c k Hk. simpl in Hk. by rewrite lookup_nil in Hk.
Qed.

End ChannelProps.

(** ** More on the server: the registry, output windows, input order *)
Module ServerMore.
Import Server ServerProps.

(** X1.  In every state the server can reach: each registered id is bound
    to a process that is running and was spawned for that id, each
    running process is the one bound to its id, and two ids never share a
    process. *)
Theorem registry_consistent tr st :
  exec tr init = Some st →
  (∀ sid p, pty_of st sid = Some p →
     ∃ pr, procs st !! p = Some pr ∧ p_sid pr = sid ∧ running pr = true)
  ∧ (∀ sid, is_Some (terminalSessions st !! sid) → is_Some (pty_of st sid))
  ∧ (∀ p pr, procs st !! p = Some pr → running pr = true →
       pty_of st (p_sid pr) = Some p)
  ∧ (∀ sid1 sid2 p, pty_of st sid1 = Some p → pty_of st sid2 = Some p →
       sid1 = sid2).
Proof.
  intros Hreach. pose proof (inv_reachable _ _ Hreach) as Hinv.
  assert (H1 : ∀ sid p, pty_of st sid = Some p →
            ∃ pr, procs st !! p = Some pr ∧ p_sid pr = sid ∧ running pr = true).
  { intros sid p (a & s & Ha & Hs & Hp)%pty_of_Some.
    destruct (inv_reg _ Hinv _ _ Ha) as (s' & pr & Hs' & Hpr & ? & ?).
    exists pr. simplify_eq. done. }
  split_and!.
  - done.
  - intros sid [a Ha].
    destruct (inv_reg _ Hinv _ _ Ha) as (s & pr & Hs & _).
    exists (pty s). apply pty_of_Some. eauto.
  - intros p pr Hp Hr.
    destruct (inv_run _ Hinv _ _ Hp Hr) as (a & s & Ha & Hs & Hpty).
    apply pty_of_Some. eauto.
  - intros sid1 sid2 p Hp1 Hp2.
    destruct (H1 _ _ Hp1) as (pr1 & Hpr1 & <- & _).
    destruct (H1 _ _ Hp2) as (pr2 & Hpr2 & <- & _).
    congruence.
Qed.

Lemma registry_consistent_witness :
  ∃ pr, procs st_detached !! 0 = Some pr ∧ p_sid pr = "s1" ∧ running pr = true.
Proof.
  assert (Hr : exec tr_detached init = Some st_detached) by (vm_compute; reflexivity).
  destruct (registry_consistent tr_detached st_detached Hr) as (H & _).
  apply (H "s1" 0). vm_compute; reflexivity.
Defined.

(** X2.  In every state the server can reach, an input request answered
    with success has called [write], with the input as sent, on a running
    process spawned for the id of the request, and a resize request
    answered with success has called [resize] on such a process. *)
Theorem success_reached_live_process tr st sid b ok st' :
  exec tr init = Some st →
  (input_handler sid b ok st = (st', Reply 200 Success) →
     ∃ p pr, effects st' = effects st ++ [EWrite p (field b "input")]
             ∧ procs st !! p = Some pr ∧ p_sid pr = sid ∧ running pr = true)
  ∧ (resize_handler sid b ok st = (st', Reply 200 Success) →
       ∃ p pr, effects st' = effects st
                             ++ [EResize p (field b "cols") (field b "rows")]
               ∧ procs st !! p = Some pr ∧ p_sid pr = sid ∧ running pr = true).
Proof.
  intros Hreach. pose proof (inv_reachable _ _ Hreach) as Hinv.
  assert (Hlive : ∀ s, get_session st sid = Some s →
            ∃ pr, procs st !! pty s = Some pr ∧ p_sid pr = sid ∧ running pr = true).
  { intros s Hs. unfold get_session in Hs.
    destruct (terminalSessions st !! sid) as [a|] eqn:Ha; simpl in Hs; [|done].
    destruct (inv_reg _ Hinv _ _ Ha) as (s' & pr & Hs' & Hpr & ? & ?).
    exists pr. simplify_eq. done. }
  split.
  - unfold input_handler.
    destruct (truthy (field b "input")); simpl; [|done].
    destruct (get_session st sid) as [s|] eqn:Hs; [|done].
    intros [= <- Hrep]. destruct (Hlive s eq_refl) as (pr & ? & ? & ?).
    exists (pty s), pr. done.
  - unfold resize_handler.
    destruct (get_session st sid) as [s|] eqn:Hs; [|done].
    intros [= <- Hrep]. destruct (Hlive s eq_refl) as (pr & ? & ? & ?).
    exists (pty s), pr. done.
Qed.

Lemma success_reached_live_process_witness :
  ∃ p pr, effects (fst (input_handler "s1" {[ "input" := JStr "ls" ]} true st_detached))
          = effects st_detached ++ [EWrite p (field {[ "input" := JStr "ls" ]} "input")]
          ∧ procs st_detached !! p = Some pr ∧ p_sid pr = "s1" ∧ running pr = true.
Proof.
  assert (Hr : exec tr_detached init = Some st_detached) by (vm_compute; reflexivity).
  apply (proj1 (success_reached_live_process tr_detached st_detached "s1"
                  {[ "input" := JStr "ls" ]} true
                  (fst (input_handler "s1" {[ "input" := JStr "ls" ]} true st_detached))
                  Hr)).
  vm_compute; reflexivity.
Defined.

(** *** Output windows *)

Lemma data_window chunks : ∀ p pr r o st,
  procs st !! p = Some pr → running pr = true →
  sink_of st (p_sid pr) = Some r →
  responses st !! r = Some o → destroyed o = false → ended o = false →
  r = p_res pr ∨ res_live st (p_res pr) = false →
  ∃ st', exec (Data p <$> chunks) st = Some st'
         ∧ responses st' = <[r := with_chunks chunks o]> (responses st)
         ∧ terminalSessions st' = terminalSessions st
         ∧ heap st' = heap st ∧ procs st' = procs st
         ∧ effects st' = effects st.
Proof.
  induction chunks as [|d chunks IH]; intros p pr r o st Hp Hrun Hs Ho Hd He Hor.
  - exists st. simpl. split_and!; try done.
    symmetry. apply list_insert_id. rewrite Ho. f_equal.
    destruct o; unfold with_chunks; simpl. by rewrite app_nil_r.
  - pose proof (onData_reaches_sink p pr r o d st Hp Hs Ho Hd He Hor) as Hres.
    destruct (onData_frame p d st) as (Hm & Hh & Hps & _ & Hef).
    pose proof (lookup_lt_Some _ _ _ Ho) as Hlt.
    destruct (IH p pr r (add_frame (FOutput d) o) (onData p d st))
      as (st' & Hex & Hr' & Hm' & Hh' & Hps' & Hef'); try done.
    + by rewrite Hps.
    + unfold sink_of, get_session in *. by rewrite Hm, Hh.
    + rewrite Hres. by apply list_lookup_insert_eq.
    + destruct (decide (r = p_res pr)) as [|Hne]; [by left|right].
      destruct Hor as [|Hl0]; [done|].
      unfold res_live in *. rewrite Hres. by rewrite list_lookup_insert_ne.
    + exists st'. simpl. unfold is_running. rewrite Hp, Hrun.
      split_and!; try congruence; [exact Hex|].
      rewrite Hr', Hres, list_insert_insert_eq. f_equal.
      unfold with_chunks, add_frame; simpl. by rewrite <- app_assoc.
Qed.

(** X3.  While the sink of a session is a live response that is either
    the one the output callback closed over, or set while that one is
    destroyed, every chunk the process emits is written to the sink as one
    output frame, in the order emitted, and nothing else changes: no other
    response receives a frame and no process is called. *)
Theorem window_delivers_in_order chunks p pr r o st :
  procs st !! p = Some pr → running pr = true →
  sink_of st (p_sid pr) = Some r →
  responses st !! r = Some o → destroyed o = false → ended o = false →
  r = p_res pr ∨ res_live st (p_res pr) = false →
  ∃ st', exec (Data p <$> chunks) st = Some st'
         ∧ frames_of st' r = frames_of st r ++ (FOutput <$> chunks)
         ∧ (∀ r', r' ≠ r → frames_of st' r' = frames_of st r')
         ∧ effects st' = effects st
         ∧ terminalSessions st' = terminalSessions st.
Proof.
  intros Hp Hrun Hs Ho Hd He Hor.
  destruct (data_window chunks p pr r o st)
    as (st' & Hex & Hr' & Hm' & _ & _ & Hef'); try done.
  pose proof (lookup_lt_Some _ _ _ Ho) as Hlt.
  exists st'. split_and!; try done.
  - unfold frames_of. rewrite Hr', Ho, list_lookup_insert_eq by done. done.
  - intros r' Hne. unfold frames_of. by rewrite Hr', list_lookup_insert_ne.
Qed.

Lemma window_delivers_in_order_witness :
  ∃ st', exec (Data 0 <$> ["a"; "b"; "c"]) (attach "s1" init) = Some st'
         ∧ frames_of st' 0
           = frames_of (attach "s1" init) 0 ++ (FOutput <$> ["a"; "b"; "c"])
         ∧ (∀ r', r' ≠ 0 → frames_of st' r' = frames_of (attach "s1" init) r')
         ∧ effects st' = effects (attach "s1" init)
         ∧ terminalSessions st' = terminalSessions (attach "s1" init).
Proof.
  apply (window_delivers_in_order ["a"; "b"; "c"] 0
           {| p_sid := "s1"; p_res := 0; running := true |} 0
           {| destroyed := false; ended := false; written := [FConnected];
              captured := Some 0 |});
    try (vm_compute; reflexivity).
  left. reflexivity.
Defined.

Lemma exec_app tr1 : ∀ tr2 st,
  exec (tr1 ++ tr2) st = exec tr1 st ≫= exec tr2.
Proof.
  induction tr1 as [|e tr1 IH]; intros tr2 st; simpl; [done|].
  destruct (enabled st e); [apply IH|done].
Qed.

(** Every process closed over a response that exists. *)
Lemma p_res_valid tr : ∀ st st',
  (∀ p pr, procs st !! p = Some pr → p_res pr < length (responses st)) →
  exec tr st = Some st' →
  ∀ p pr, procs st' !! p = Some pr → p_res pr < length (responses st').
Proof.
  induction tr as [|e tr IH]; simpl; intros st st' Hv Hex.
  - by simplify_eq.
  - destruct (enabled st e); [|done].
    apply (IH (step e st)); [|done]. clear IH Hex.
    assert (Hw : ∀ r f, length (responses (res_write r f st)) = length (responses st)).
    { intros r f. unfold res_write. repeat case_match; simpl;
        by rewrite ?length_insert. }
    destruct e as [sid|r|q ch|q c sg|q|sid b ok|sid b ok]; simpl.
    + unfold attach. case_match; simpl; intros p pr Hp; rewrite length_app; simpl.
      * apply Hv in Hp. lia.
      * apply lookup_app_Some in Hp as [Hp|[_ Hp]]; [apply Hv in Hp; lia|].
        apply list_lookup_singleton_Some in Hp as [_ <-]. simpl. lia.
    + destruct (on_close_frame r st) as (_ & -> & _).
      intros p pr Hp. apply Hv in Hp.
      unfold on_close. repeat case_match; simpl; by rewrite ?length_insert.
    + destruct (onData_frame q ch st) as (_ & _ & -> & _).
      intros p pr Hp. apply Hv in Hp.
      unfold onData. repeat case_match; simpl; by rewrite ?Hw.
    + intros p pr Hp. unfold exit_process in *.
      destruct (onExit_frame q c sg (with_procs (alter set_exited q (procs st)) st))
        as (_ & Hps & _).
      rewrite Hps in Hp. simpl in Hp.
      assert (∃ pr0, procs st !! p = Some pr0 ∧ p_res pr0 = p_res pr) as (pr0 & Hp0 & <-).
      { rewrite list_lookup_alter in Hp. case_decide; [|eauto].
        subst. destruct (procs st !! p) as [pr0|]; simplify_eq/=. eauto. }
      apply Hv in Hp0.
      unfold onExit. simpl. repeat case_match; simpl;
        rewrite ?length_alter; try done.
      unfold res_write. simpl. repeat case_match; simpl;
        by rewrite ?length_insert.
    + done.
    + unfold input_handler. repeat case_match; simpl; done.
    + unfold resize_handler. repeat case_match; simpl; done.
Qed.

(** X4.  In a state the server can reach where a running process has
    lost its client (the response it started with is destroyed and the
    session has no sink), what the process prints is dropped without a
    trace, and a new attach for the id spawns nothing, keeps the process,
    and receives the connected frame followed by every chunk printed from
    then on, in order. *)
Theorem reattach_resumes_output tr st p pr gap later :
  exec tr init = Some st →
  procs st !! p = Some pr → running pr = true →
  res_live st (p_res pr) = false → sink_of st (p_sid pr) = None →
  exec (Data p <$> gap) st = Some st
  ∧ ∃ st', exec ((Data p <$> gap) ++ [Attach (p_sid pr)] ++ (Data p <$> later)) st
           = Some st'
           ∧ frames_of st' (length (responses st))
             = FConnected :: (FOutput <$> later)
           ∧ (∀ r, r < length (responses st) → frames_of st' r = frames_of st r)
           ∧ procs st' = procs st
           ∧ pty_of st' (p_sid pr) = Some p.
Proof.
  intros Hreach Hp Hrun Hdead Hnone.
  pose proof (inv_reachable _ _ Hreach) as Hinv.
  destruct (inv_run _ Hinv _ _ Hp Hrun) as (a & s & Ha & Hs & Hpty).
  assert (Hvalid : p_res pr < length (responses st)).
  { apply (p_res_valid tr init st) with (p := p); [|done|done].
    intros ? ? Hnil. simpl in Hnil. by rewrite lookup_nil in Hnil. }
  assert (Hdrop : ∀ d, onData p d st = st).
  { intros d. unfold onData. rewrite Hp, Hdead.
    unfold sink_of in Hnone. destruct (get_session st (p_sid pr)) as [s0|]; [|done].
    simpl in Hnone. by rewrite Hnone. }
  assert (Hgap : exec (Data p <$> gap) st = Some st).
  { induction gap as [|d gap IH]; simpl; [done|].
    unfold is_running. by rewrite Hp, Hrun, Hdrop. }
  split; [done|].
  set (st1 := attach (p_sid pr) st).
  assert (Hst1 : st1 = rebound a st) by (unfold st1, attach, rebound; by rewrite Ha).
  destruct (data_window later p pr (length (responses st))
              {| destroyed := false; ended := false; written := [FConnected];
                 captured := Some a |} st1)
    as (st' & Hex & Hr' & Hm' & Hh' & Hps' & _); try done.
  - by rewrite Hst1.
  - rewrite Hst1. unfold sink_of, get_session, rebound. simpl.
    rewrite Ha. simpl. rewrite list_lookup_alter_eq, Hs. done.
  - rewrite Hst1. simpl. by apply list_lookup_middle.
  - right. rewrite Hst1. unfold res_live in *. simpl.
    by rewrite lookup_app_l.
  - exists st'. split_and!.
    + rewrite exec_app, Hgap. simpl. exact Hex.
    + unfold frames_of. rewrite Hr', list_lookup_insert_eq; [done|].
      rewrite Hst1. simpl. rewrite length_app. simpl. lia.
    + intros r Hr. unfold frames_of.
      rewrite Hr', list_lookup_insert_ne by lia.
      rewrite Hst1. simpl. by rewrite lookup_app_l.
    + rewrite Hps', Hst1. done.
    + apply pty_of_Some. exists a. rewrite Hm', Hh', Hst1. simpl.
      rewrite list_lookup_alter_eq, Hs. simpl. eauto.
Qed.

Lemma reattach_resumes_output_witness :
  exec (Data 0 <$> ["lost"]) st_detached = Some st_detached.
Proof.
  assert (Hr : exec tr_detached init = Some st_detached) by (vm_compute; reflexivity).
  apply (proj1 (reattach_resumes_output tr_detached st_detached 0
                  {| p_sid := "s1"; p_res := 0; running := true |}
                  ["lost"] ["a"; "b"] Hr eq_refl eq_refl eq_refl eq_refl)).
Defined.

(** *** Input requests in a row *)

(** X5.  Input requests for a registered session, each with a non-empty
    input and handled one after the other, call [write] on the process of
    the session once per request, with the inputs as sent and in the order
    of the requests, and change nothing else on the server. *)
Theorem inputs_written_in_order xs : ∀ sid s st,
  get_session st sid = Some s →
  Forall (λ x, x ≠ "") xs →
  ∃ st', exec (input_of sid <$> xs) st = Some st'
         ∧ effects st' = effects st ++ ((λ x, EWrite (pty s) (JStr x)) <$> xs)
         ∧ terminalSessions st' = terminalSessions st
         ∧ heap st' = heap st
         ∧ procs st' = procs st
         ∧ responses st' = responses st.
Proof.
  induction xs as [|x xs IH]; intros sid s st Hs Hne.
  - exists st. simpl. by rewrite app_nil_r.
  - apply Forall_cons in Hne as [Hx Hxs].
    assert (Hstep : step (input_of sid x) st = add_effect (EWrite (pty s) (JStr x)) st).
    { simpl. unfold input_handler, field. rewrite lookup_singleton_eq. simpl.
      destruct (String.eqb_spec x ""); [done|]. simpl. by rewrite Hs. }
    destruct (IH sid s (add_effect (EWrite (pty s) (JStr x)) st))
      as (st' & Hex & Hef & Hm & Hh & Hp & Hr); [done|done|].
    exists st'. change (exec (input_of sid <$> x :: xs) st)
      with (exec (input_of sid <$> xs) (step (input_of sid x) st)).
    rewrite Hstep. split_and!; try done.
    rewrite Hef. simpl. by rewrite <- app_assoc.
Qed.

Lemma inputs_written_in_order_witness :
  ∃ st', exec (input_of "s1" <$> ["l"; "s"; crlf]) (attach "s1" init) = Some st'
         ∧ effects st'
           = effects (attach "s1" init)
             ++ ((λ x, EWrite (pty {| pty := 0; res := Some 0 |}) (JStr x))
                   <$> ["l"; "s"; crlf])
         ∧ terminalSessions st' = terminalSessions (attach "s1" init)
         ∧ heap st' = heap (attach "s1" init)
         ∧ procs st' = procs (attach "s1" init)
         ∧ responses st' = responses (attach "s1" init).
Proof.
  apply (inputs_written_in_order ["l"; "s"; crlf] "s1"
           {| pty := 0; res := Some 0 |} (attach "s1" init)).
  - vm_compute; reflexivity.
  - repeat constructor; discriminate.
Defined.

End ServerMore.

(** ** More on the client push channel: rendering and connections *)
Module ChannelMore.
Import Channel ChannelProps.



(** *** Everything received gets rendered *)







(** *** Connections *)

Lemma flushBuffer_ready c st :
  sessionReady (flushBuffer c st) = sessionReady st.
Proof.
  unfold flushBuffer. destruct (conns st !! c) as [k|]; [|done].
  by destruct (negb (String.eqb (writeBuffer k) "")), (writeTimer k).
Qed.

(** X8.  In every state the client can reach, at most one connection is
    not closed, and it is the latest one made; while a connect is pending
    every connection is closed and no second connect is pending; and every
    connection was opened with the session id of the page. *)
Theorem one_live_connection sid tr st :
  channel_exec tr (page_init sid) = Some st →
  (∀ i j ki kj, conns st !! i = Some ki → conns st !! j = Some kj →
     readyState ki ≠ CLOSED → readyState kj ≠ CLOSED →
     i = j ∧ S i = length (conns st))
  ∧ (pending_connects st ≠ [] →
       length (pending_connects st) = 1
       ∧ ∀ i k, conns st !! i = Some k → readyState k = CLOSED)
  ∧ (∀ i k, conns st !! i = Some k → url_sid k = sid).
Proof.
  intros Hex.
  destruct (tidy_exec tr (page_init sid) st (tidy_init sid) Hex) as [Ht Hsid].
  simpl in Hsid.
  assert (Hlink : ∀ i k, conns st !! i = Some k →
            links st !! i = Some (url_sid k, readyState k)).
  { intros i k Hk. unfold links. by rewrite list_lookup_fmap, Hk. }
  assert (Hlen : length (links st) = length (conns st))
    by (unfold links; apply length_fmap).
  split_and!.
  - intros i j ki kj Hi Hj Hni Hnj.
    destruct (tidy_alive_last st i _ _ Ht (Hlink _ _ Hi) Hni) as [Hi' _].
    destruct (tidy_alive_last st j _ _ Ht (Hlink _ _ Hj) Hnj) as [Hj' _].
    split; lia.
  - intros Hne. split.
    + pose proof (tidy_one _ Ht).
      destruct (pending_connects st) as [|? [|? ?]]; simpl in *; (done || lia).
    + intros i k Hk. pose proof (tidy_idle _ Ht Hne) as Hall.
      rewrite Forall_lookup in Hall. apply (Hall i _ (Hlink _ _ Hk)).
  - intros i k Hk. rewrite <- Hsid. apply (tidy_sid _ Ht i _ (Hlink _ _ Hk)).
Qed.

Lemma one_live_connection_witness :
  (∀ i j ki kj, conns st_open !! i = Some ki → conns st_open !! j = Some kj →
     readyState ki ≠ CLOSED → readyState kj ≠ CLOSED →
     i = j ∧ S i = length (conns st_open))
  ∧ (pending_connects st_open ≠ [] →
       length (pending_connects st_open) = 1
       ∧ ∀ i k, conns st_open !! i = Some k → readyState k = CLOSED)
  ∧ (∀ i k, conns st_open !! i = Some k → url_sid k = "s1").
Proof.
  apply (one_live_connection "s1" tr_open st_open).
  vm_compute; reflexivity.
Defined.

(** X9.  In every state the client can reach, a transport error that
    leaves the connection in state CONNECTING (the transport retries by
    itself) is informational: no reconnect is scheduled, no connection is
    opened, readiness of the session is left as it was, and the terminal
    is told that the channel is connecting. *)
Theorem error_while_connecting_is_informational sid tr st c :
  channel_exec tr (page_init sid) = Some st →
  channel_enabled st (EsError c false) = true →
  pending_connects (channel_step (EsError c false) st) = []
  ∧ length (conns (channel_step (EsError c false) st)) = length (conns st)
  ∧ state_of (channel_step (EsError c false) st) c = Some CONNECTING
  ∧ sessionReady (channel_step (EsError c false) st) = sessionReady st
  ∧ ∃ written, screen (channel_step (EsError c false) st)
               = written ++ [SNote NConnecting].
Proof.
  intros Hex Hen.
  destruct (tidy_exec tr (page_init sid) st (tidy_init sid) Hex) as [Ht _].
  destruct (enabled_error_alive st c false Hen) as (u & rs & Hc & Hrs).
  destruct (onerror_current st c false Ht Hen) as (Hl & Hp1 & Hs & Hcur).
  simpl. unfold onerror. rewrite Hcur.
  set (st0 := with_conns _ st) in *.
  split_and!.
  - done.
  - change (length (conns (flushBuffer c st0)) = length (conns st)).
    replace (length (conns (flushBuffer c st0)))
      with (length (links (flushBuffer c st0)))
      by (unfold links; apply length_fmap).
    rewrite Hl, length_alter. unfold links. apply length_fmap.
  - apply state_of_links. exists u.
    change (links (flushBuffer c st0) !! c = Some (u, CONNECTING)).
    by rewrite Hl, list_lookup_alter_eq, Hc.
  - simpl. by rewrite flushBuffer_ready.
  - simpl. eauto.
Qed.

Lemma error_while_connecting_is_informational_witness :
  pending_connects (channel_step (EsError 0 false) st_open) = []
  ∧ length (conns (channel_step (EsError 0 false) st_open)) = length (conns st_open)
  ∧ state_of (channel_step (EsError 0 false) st_open) 0 = Some CONNECTING
  ∧ sessionReady (channel_step (EsError 0 false) st_open) = sessionReady st_open
  ∧ ∃ written, screen (channel_step (EsError 0 false) st_open)
               = written ++ [SNote NConnecting].
Proof.
  apply (error_while_connecting_is_informational "s1" tr_open st_open 0);
    vm_compute; reflexivity.
Defined.

End ChannelMore.

(** ** The language of a file: [getLanguageFromPath] *)
Module EditorProps.
Import Server Editor.

Lemma split_dot_nonempty s : split_dot s ≠ [].
Proof.
  induction s as [|c s IH]; simpl; [done|].
  destruct (Ascii.eqb c "."); [done|]. by destruct (split_dot s).
Qed.

Lemma pop_app l1 l2 : l2 ≠ [] → pop (l1 ++ l2) = pop l2.
Proof.
  intros Hne. unfold pop. induction l1 as [|x l1 IH]; [done|].
  simpl. destruct (l1 ++ l2) eqn:E; [|done].
  apply app_eq_nil in E as [_ ?]. done.
Qed.

Lemma append_cons c s1 s2 : String c s1 +:+ s2 = String c (s1 +:+ s2).
Proof. reflexivity. Qed.

(** Splitting at the dots splits each side of a dot on its own. *)
Lemma split_dot_app d e :
  split_dot (d +:+ "." +:+ e) = split_dot d ++ split_dot e.
Proof.
  induction d as [|c d IH].
  - reflexivity.
  - rewrite append_cons. simpl. rewrite IH.
    destruct (Ascii.eqb c "."); [done|].
    pose proof (split_dot_nonempty d). by destruct (split_dot d).
Qed.

(** X10.  The language of a path is decided by what follows its last
    dot alone: whatever precedes a dot plays no part, so a path can be cut
    at any dot, and a path that ends in a dot is plain text. *)
Theorem language_by_last_segment d e :
  getLanguageFromPath (d +:+ "." +:+ e) = getLanguageFromPath e
  ∧ getLanguageFromPath (d +:+ ".") = Lang "plaintext".
Proof.
  assert (H : ∀ e', getLanguageFromPath (d +:+ "." +:+ e') = getLanguageFromPath e').
  { intros e'. unfold getLanguageFromPath.
    rewrite split_dot_app, pop_app; [done|apply split_dot_nonempty]. }
  split; [apply H|]. apply (H "").
Qed.

Lemma lower_unit_dot c : Ascii.eqb (lower_unit c) "." = Ascii.eqb c ".".
Proof. destruct c as [[] [] [] [] [] [] [] []]; vm_compute; reflexivity. Qed.

Lemma split_dot_lower s :
  split_dot (toLowerCase s) = toLowerCase <$> split_dot s.
Proof.
  induction s as [|c s IH]; [done|].
  simpl. rewrite lower_unit_dot, IH.
  destruct (Ascii.eqb c "."); [done|].
  by destruct (split_dot s).
Qed.

Lemma pop_lower l : pop (toLowerCase <$> l) = toLowerCase (pop l).
Proof.
  unfold pop. change "" with (toLowerCase "") at 1.
  induction l as [|x l IH]; [done|].
  destruct l as [|y l]; [done|]. exact IH.
Qed.

(** X11.  The language of a path does not depend on the case of its
    letters: two paths that differ only in case get the same language. *)
Theorem language_ignores_case p q :
  toLowerCase p = toLowerCase q →
  getLanguageFromPath p = getLanguageFromPath q.
Proof.
  intros Heq.
  assert (H : ∀ x, toLowerCase (pop (split_dot x))
                   = pop (split_dot (toLowerCase x))).
  { intros x. by rewrite split_dot_lower, pop_lower. }
  unfold getLanguageFromPath. by rewrite !H, Heq.
Qed.

Lemma language_ignores_case_witness :
  getLanguageFromPath "src/Main.PY" = getLanguageFromPath "SRC/main.py".
Proof.
  apply language_ignores_case. vm_compute; reflexivity.
Defined.

End EditorProps.

(** ** Waiting for the terminal library: [waitForXterm] *)
Module LoaderProps.
Import Loader.

Lemma waitForXterm_spec seen m : ∀ e,
  let o := waitForXterm seen e m in
  e ≤ waited o ≤ e + m
  ∧ (∀ k, e ≤ k < waited o → both (seen k) = false)
  ∧ match o with
    | Started n true => both (seen n) = true
    | Started n false =>
        n = e + m ∧ terminal_loaded (seen n) = true
        ∧ fitaddon_loaded (seen n) = false
    | GaveUp n => n = e + m ∧ terminal_loaded (seen n) = false
    end.
Proof.
  induction m as [|m IH]; intros e; simpl.
  - destruct (terminal_loaded (seen e)) eqn:Ht;
      destruct (fitaddon_loaded (seen e)) eqn:Hf; simpl;
      (split; [lia|]); (split; [intros k ?; lia|]);
      unfold both; rewrite ?Ht, ?Hf; try done; split; (done || lia).
  - destruct (terminal_loaded (seen e) && fitaddon_loaded (seen e)) eqn:Hb; simpl.
    + split; [lia|]. split; [intros k ?; lia|]. done.
    + destruct (IH (S e)) as (Hw & Hno & Hout).
      split; [lia|]. split.
      * intros k Hk. destruct (decide (k = e)) as [->|]; [done|].
        apply Hno. lia.
      * destruct (waitForXterm seen (S e) m) as [n [|]|n]; simpl in *;
          try done; destruct Hout as (-> & ?); split; (done || lia).
Qed.

(** X12.  [waitForXterm] always ends, after at most [maxAttempts]
    timeouts of 50 ms, at the first check that finds both libraries if
    there is one among the first [maxAttempts + 1]; it calls the callback
    without FitAddon, or alerts, only at the last check, when that one
    finds the terminal alone, or no terminal. *)
Theorem wait_is_bounded seen maxAttempts :
  waited (waitForXterm seen 0 maxAttempts) * POLL_MS ≤ maxAttempts * POLL_MS
  ∧ (∀ k, k < waited (waitForXterm seen 0 maxAttempts) → both (seen k) = false)
  ∧ match waitForXterm seen 0 maxAttempts with
    | Started n true => both (seen n) = true
    | Started n false =>
        n = maxAttempts ∧ terminal_loaded (seen n) = true
        ∧ fitaddon_loaded (seen n) = false
    | GaveUp n => n = maxAttempts ∧ terminal_loaded (seen n) = false
    end.
Proof.
  destruct (waitForXterm_spec seen maxAttempts 0) as (Hw & Hno & Hout).
  simpl in *. split_and!.
  - apply Nat.mul_le_mono_r. lia.
  - intros k Hk. apply Hno. lia.
  - done.
Qed.

(** X13.  If some check among the first [maxAttempts + 1] finds both the
    terminal and FitAddon, the callback is called with both, at the first
    such check, and the user is never alerted. *)
Theorem loaded_in_time_starts seen maxAttempts k :
  k ≤ maxAttempts → both (seen k) = true →
  ∃ n, waitForXterm seen 0 maxAttempts = Started n true
       ∧ n ≤ k ∧ both (seen n) = true
       ∧ ∀ j, j < n → both (seen j) = false.
Proof.
  intros Hk Hb.
  destruct (waitForXterm_spec seen maxAttempts 0) as (Hw & Hno & Hout).
  simpl in *.
  assert (Hle : waited (waitForXterm seen 0 maxAttempts) ≤ k).
  { destruct (decide (waited (waitForXterm seen 0 maxAttempts) ≤ k)); [done|].
    rewrite Hno in Hb; [done|lia]. }
  destruct (waitForXterm seen 0 maxAttempts) as [n [|]|n]; simpl in *.
  - exists n. split_and!; try done. intros j Hj. apply Hno. lia.
  - destruct Hout as (-> & Ht & Hf). assert (k = maxAttempts) as -> by lia.
    unfold both in Hb. by rewrite Ht, Hf in Hb.
  - destruct Hout as (-> & Ht). assert (k = maxAttempts) as -> by lia.
    unfold both in Hb. by rewrite Ht in Hb.
Qed.

Lemma loaded_in_time_starts_witness :
  ∃ n, waitForXterm (λ i, Libraries (Nat.leb 2 i) (Nat.leb 3 i)) 0 100
       = Started n true
       ∧ n ≤ 5
       ∧ both ((λ i, Libraries (Nat.leb 2 i) (Nat.leb 3 i)) n) = true
       ∧ ∀ j, j < n → both ((λ i, Libraries (Nat.leb 2 i) (Nat.leb 3 i)) j) = false.
Proof.
  apply (loaded_in_time_starts (λ i, Libraries (Nat.leb 2 i) (Nat.leb 3 i)) 100 5).
  - lia.
  - reflexivity.
Defined.

End LoaderProps.

(** ** The terminal size on its way to the process: [resizeTerminal] *)
Module ViewportProps.
Import Server Viewport.

(** The tests on fewer than 10 columns or 5 rows change nothing. *)
Lemma fix_dims_eq (cols rows : Z) :
  fix_dims cols rows
  = ((if (cols =? 0)%Z then 80%Z else cols),
     (if (rows =? 0)%Z then 24%Z else rows)).
Proof.
  unfold fix_dims.
  destruct (cols =? 0)%Z eqn:Hc, (rows =? 0)%Z eqn:Hr; simpl; try done.
  by destruct (cols <? 10)%Z, (rows <? 5)%Z.
Qed.

(** X14.  The dimensions [resizeTerminal] sends are those of the terminal
    with a zero replaced by the default, 80 columns or 24 rows: the tests
    on fewer than 10 columns or 5 rows change nothing, and a zero is never
    sent. *)
Theorem dims_only_replace_zero (cols rows : Z) :
  fix_dims cols rows
  = ((if (cols =? 0)%Z then 80%Z else cols),
     (if (rows =? 0)%Z then 24%Z else rows))
  ∧ (fix_dims cols rows).1 ≠ 0%Z ∧ (fix_dims cols rows).2 ≠ 0%Z.
Proof.
  rewrite fix_dims_eq. split; [done|]. simpl.
  destruct (Z.eqb_spec cols 0), (Z.eqb_spec rows 0); split; lia.
Qed.

Lemma field_cols (c r : jsval) :
  field {[ "cols" := c; "rows" := r ]} "cols" = c.
Proof. unfold field. by rewrite lookup_insert_eq. Qed.

Lemma field_rows (c r : jsval) :
  field {[ "cols" := c; "rows" := r ]} "rows" = r.
Proof.
  unfold field. rewrite lookup_insert_ne by done.
  by rewrite lookup_singleton_eq.
Qed.

(** X15.  A resize of a terminal that has dimensions, for a session the
    server has registered, calls [resize] on the process of that session
    with two numbers that are not zero: the dimensions of the terminal, a
    zero replaced by 80 columns or 24 rows.  Nothing else on the server
    changes. *)
Theorem resize_reaches_process t sid ok st s cols rows :
  t_cols t = Some cols → t_rows t = Some rows → sid ≠ "" →
  get_session st sid = Some s →
  ∃ c r,
    resize_on_server (Some t) (Some sid) ok st
    = (add_effect (EResize (pty s) (JNum c) (JNum r)) st,
       Some (if ok then Reply 200 Success
             else Reply 500 (Failure "Internal Server Error")))
    ∧ c ≠ 0%Z ∧ r ≠ 0%Z
    ∧ (cols ≠ 0%Z → c = cols) ∧ (rows ≠ 0%Z → r = rows).
Proof.
  intros Hc Hr Hsid Hs.
  pose proof (fix_dims_eq cols rows) as Hfix.
  destruct (fix_dims cols rows) as [c r] eqn:Hd.
  exists c, r. split.
  - unfold resize_on_server, resizeTerminal. rewrite Hc, Hr.
    apply String.eqb_neq in Hsid. rewrite Hsid, Hd.
    unfold resize_handler. rewrite Hs, field_cols, field_rows. done.
  - injection Hfix as -> ->.
    destruct (Z.eqb_spec cols 0), (Z.eqb_spec rows 0); split_and!; lia.
Qed.

Lemma resize_reaches_process_witness :
  ∃ c r,
    resize_on_server (Some (Geometry (Some 0%Z) (Some 3%Z))) (Some "s1")
      true st_one
    = (add_effect (EResize 0 (JNum c) (JNum r)) st_one,
       Some (Reply 200 Success))
    ∧ c ≠ 0%Z ∧ r ≠ 0%Z ∧ (0%Z ≠ 0%Z → c = 0%Z) ∧ (3%Z ≠ 0%Z → r = 3%Z).
Proof.
  apply (resize_reaches_process (Geometry (Some 0%Z) (Some 3%Z)) "s1" true
           st_one (Session 0 None) 0 3).
  - reflexivity.
  - reflexivity.
  - done.
  - vm_compute; reflexivity.
Defined.

End ViewportProps.

(** ** The file endpoints *)
Module FilesProps.
Import Server Files.

Global Instance flat_fs_laws : FileSystemLaws flat_fs.
Proof.
  split. intros f f' p s Hw. simpl in *. simplify_eq.
  unfold flat_fs. by rewrite lookup_insert_eq.
Qed.

Lemma truthy_str p : truthy (JStr p) = true ↔ p ≠ "".
Proof.
  simpl. destruct (String.eqb_spec p ""); simpl; split; congruence.
Qed.

(** X16.  A text saved through [POST /api/files/save] is what
    [GET /api/files/content] serves for the same path afterwards, the
    empty text included, on any file system where reading gives what was
    written. *)
Theorem saved_text_is_served `{FileSystemLaws fs} (f f' : fs) b p s :
  field b "path" = JStr p → field b "content" = JStr s →
  save_handler f b = (f', SavedReply) →
  content_handler f' (JStr p) = ContentReply s.
Proof.
  intros Hp Hs. unfold save_handler, content_handler. rewrite Hp, Hs.
  destruct (truthy (JStr p)) eqn:Ht; simpl; [|intros; simplify_eq].
  destruct (writeFileSync f (JStr p) (JStr s)) as [f1 [m|]] eqn:Hw;
    intros; simplify_eq.
  by rewrite (read_after_write _ _ _ _ Hw).
Qed.

Lemma saved_text_is_served_witness :
  content_handler (fs := flat_fs) {[ "notes.md" := "" ]} (JStr "notes.md")
  = ContentReply "".
Proof.
  apply (saved_text_is_served (fs := flat_fs) ∅ {[ "notes.md" := "" ]}
           {[ "path" := JStr "notes.md"; "content" := JStr "" ]}
           "notes.md" "").
  - vm_compute; reflexivity.
  - vm_compute; reflexivity.
  - vm_compute; reflexivity.
Defined.

Lemma list_entries_mirror `{FileSystem fs} dir ds : ∀ es,
  list_entries dir ds = Returns es →
  e_name <$> es = d_name <$> ds
  ∧ e_type <$> es
    = (λ d, if isDirectory d then "directory" else "file") <$> ds
  ∧ Returns <$> (e_path <$> es) = (λ d, path_join dir (d_name d)) <$> ds.
Proof.
  induction ds as [|d ds IH]; intros es; simpl.
  - intros; simplify_eq. done.
  - destruct (path_join dir (d_name d)) as [p|m] eqn:Hj; [|done].
    destruct (list_entries dir ds) as [es'|m]; [|done].
    intros; simplify_eq. destruct (IH es' eq_refl) as (Hn & Ht & Hp).
    simpl in *. split_and!; f_equal; done.
Qed.

(** X17.  A listing that [GET /api/files] serves mirrors the directory it
    read, the current directory when the request names none: one element
    per entry and in the same order, with the name of the entry, its kind,
    and the name joined to the directory as its path. *)
Theorem listing_mirrors_directory `{FileSystem fs} (f : fs) q es :
  files_handler f q = ListReply es →
  ∃ ds, readdirSync f (if truthy q then q else JStr ".") = Returns ds
    ∧ e_name <$> es = d_name <$> ds
    ∧ e_type <$> es
      = (λ d, if isDirectory d then "directory" else "file") <$> ds
    ∧ Returns <$> (e_path <$> es)
      = (λ d, path_join (if truthy q then q else JStr ".") (d_name d)) <$> ds.
Proof.
  unfold files_handler. intros Hl.
  destruct (readdirSync f _) as [ds|m] eqn:Hr; [|done].
  destruct (list_entries _ ds) as [es'|m] eqn:He; [|done].
  simplify_eq. exists ds. split; [done|]. by apply list_entries_mirror.
Qed.

Lemma listing_mirrors_directory_witness :
  ∃ ds, readdirSync (fs := flat_fs) {[ "a.js" := "x" ]} (JStr ".") = Returns ds
    ∧ e_name <$> [Entry "a.js" "file" "a.js"] = d_name <$> ds
    ∧ e_type <$> [Entry "a.js" "file" "a.js"]
      = (λ d, if isDirectory d then "directory" else "file") <$> ds
    ∧ Returns <$> (e_path <$> [Entry "a.js" "file" "a.js"])
      = (λ d, path_join (fs := flat_fs) (JStr ".") (d_name d)) <$> ds.
Proof.
  apply (listing_mirrors_directory (fs := flat_fs) {[ "a.js" := "x" ]}
           JUndefined [Entry "a.js" "file" "a.js"]).
  vm_compute; reflexivity.
Defined.

End FilesProps.

(** ** The editor against the file endpoints: [loadFile], [saveFile] *)
Module EditorFiles.
Import Server Files Editor FilesProps.

Lemma field_path (p c : jsval) :
  field {[ "path" := p; "content" := c ]} "path" = p.
Proof. unfold field. by rewrite lookup_insert_eq. Qed.

Lemma field_content (p c : jsval) :
  field {[ "path" := p; "content" := c ]} "content" = c.
Proof.
  unfold field. rewrite lookup_insert_ne by done.
  by rewrite lookup_singleton_eq.
Qed.

(** What [saveFile] asks for: nothing, or a path that is not empty with
    the text of the editor. *)
Lemma saveFile_request_cases answer ed :
  saveFile_request answer ed = (ed, None)
  ∨ ∃ p, p ≠ ""
      ∧ saveFile_request answer ed
        = (set_path (Some p) ed,
           Some {[ "path" := JStr p; "content" := JStr (value ed) ]})
      ∧ (currentFilePath ed = Some p
         ∨ (answer = Some p
            ∧ (currentFilePath ed = None ∨ currentFilePath ed = Some ""))).
Proof.
  unfold saveFile_request.
  destruct (currentFilePath ed) as [p|] eqn:Hp.
  - destruct (String.eqb_spec p "") as [->|Hne].
    + destruct answer as [a|]; [|by left].
      destruct (String.eqb_spec a "") as [->|Hne]; [by left|].
      right. exists a. split_and!; auto.
    + right. exists p. split_and!; auto.
  - destruct answer as [a|]; [|by left].
    destruct (String.eqb_spec a "") as [->|Hne]; [by left|].
    right. exists a. split_and!; auto.
Qed.

Lemma save_handler_text `{FileSystem fs} (f : fs) p s :
  p ≠ "" →
  save_handler f {[ "path" := JStr p; "content" := JStr s ]}
  = match writeFileSync f (JStr p) (JStr s) with
    | (f', None) => (f', SavedReply)
    | (f', Some m) => (f', ErrorReply 500 m)
    end.
Proof.
  intros Hp. unfold save_handler. rewrite field_path, field_content.
  apply truthy_str in Hp. by rewrite Hp.
Qed.

(** X18.  A save from the editor either sends nothing (no name given),
    or sends the text of the editor under a path that is not empty.  To
    such a request the endpoint answers either with success, having
    written that text under that path, and the user is then told of the
    success; or with status 500 and the message of the failed write, and
    the user is then told nothing.  It never answers such a request with
    status 400, and the text in the editor stays as it was. *)
Theorem rejected_save_is_silent `{FileSystem fs} answer (f f' : fs) ed ed' :
  save_on_server answer f ed = (f', ed') →
  (f' = f ∧ ed' = ed ∧ (saveFile_request answer ed).2 = None)
  ∨ ∃ p body, p ≠ ""
      ∧ body = {[ "path" := JStr p; "content" := JStr (value ed) ]}
      ∧ (saveFile_request answer ed).2 = Some body
      ∧ currentFilePath ed' = Some p ∧ value ed' = value ed
      ∧ ((save_handler f body = (f', SavedReply)
          ∧ writeFileSync f (JStr p) (JStr (value ed)) = (f', None)
          ∧ alerts ed' = alerts ed ++ ["File saved successfully!"])
         ∨ (∃ m, save_handler f body = (f', ErrorReply 500 m)
            ∧ writeFileSync f (JStr p) (JStr (value ed)) = (f', Some m)
            ∧ alerts ed' = alerts ed)).
Proof.
  unfold save_on_server.
  destruct (saveFile_request_cases answer ed) as [Hn|(p & Hp & Hr & _)].
  - rewrite Hn. intros [= <- <-]. by left.
  - rewrite Hr. pose proof (save_handler_text f p (value ed) Hp) as Hh.
    destruct (save_handler f _) as [f1 reply] eqn:Hs.
    destruct (writeFileSync f (JStr p) (JStr (value ed))) as [f2 [m|]] eqn:Hw;
      injection Hh as -> ->; intros [= <- <-]; right;
      exists p, {[ "path" := JStr p; "content" := JStr (value ed) ]};
      split_and!; try done.
    + right. by exists m.
    + by left.
Qed.

Lemma rejected_save_is_silent_witness :
  (ReadOnly ∅ = ReadOnly ∅
   ∧ MkEditor (Some "a.js") "x = 1" (Lang "javascript") "t" []
     = MkEditor (Some "a.js") "x = 1" (Lang "javascript") "t" []
   ∧ (saveFile_request None
        (MkEditor (Some "a.js") "x = 1" (Lang "javascript") "t" [])).2 = None)
  ∨ ∃ p body, p ≠ ""
      ∧ body = {[ "path" := JStr p;
                  "content" :=
                    JStr (value (MkEditor (Some "a.js") "x = 1"
                                   (Lang "javascript") "t" [])) ]}
      ∧ (saveFile_request None
           (MkEditor (Some "a.js") "x = 1" (Lang "javascript") "t" [])).2
        = Some body
      ∧ currentFilePath
          (MkEditor (Some "a.js") "x = 1" (Lang "javascript") "t" []) = Some p
      ∧ value (MkEditor (Some "a.js") "x = 1" (Lang "javascript") "t" [])
        = value (MkEditor (Some "a.js") "x = 1" (Lang "javascript") "t" [])
      ∧ ((save_handler (ReadOnly ∅) body = (ReadOnly ∅, SavedReply)
          ∧ writeFileSync (ReadOnly ∅) (JStr p)
              (JStr (value (MkEditor (Some "a.js") "x = 1" (Lang "javascript") "t" [])))
            = (ReadOnly ∅, None)
          ∧ alerts (MkEditor (Some "a.js") "x = 1" (Lang "javascript") "t" [])
            = alerts (MkEditor (Some "a.js") "x = 1" (Lang "javascript") "t" [])
              ++ ["File saved successfully!"])
         ∨ (∃ m, save_handler (ReadOnly ∅) body = (ReadOnly ∅, ErrorReply 500 m)
            ∧ writeFileSync (ReadOnly ∅) (JStr p)
                (JStr (value (MkEditor (Some "a.js") "x = 1" (Lang "javascript") "t" [])))
              = (ReadOnly ∅, Some m)
            ∧ alerts (MkEditor (Some "a.js") "x = 1" (Lang "javascript") "t" [])
              = alerts (MkEditor (Some "a.js") "x = 1" (Lang "javascript") "t" []))).
Proof.
  apply (rejected_save_is_silent None (ReadOnly ∅) (ReadOnly ∅)
           (MkEditor (Some "a.js") "x = 1" (Lang "javascript") "t" [])
           (MkEditor (Some "a.js") "x = 1" (Lang "javascript") "t" [])).
  vm_compute; reflexivity.
Defined.



(** X20.  A load that the server answers, whatever the answer, makes the
    requested path the current one before anything else: when the path is
    not empty, the next save asks for no name and sends the text then in
    the editor under that path, also when the server had refused the load. *)
Theorem load_retargets_save `{FileSystem fs} set_other answer (f : fs) p ed :
  p ≠ "" →
  currentFilePath (load_from_server set_other p f ed) = Some p
  ∧ saveFile_request answer (load_from_server set_other p f ed)
    = (load_from_server set_other p f ed,
       Some {[ "path" := JStr p;
               "content" := JStr (value (load_from_server set_other p f ed)) ]}).
Proof.
  intros Hp. set (ed1 := load_from_server set_other p f ed).
  assert (Hc : currentFilePath ed1 = Some p).
  { subst ed1. unfold load_from_server, loadFile.
    destruct (field _ "content"); simpl; try done;
      by destruct (set_other _ _). }
  split; [done|].
  unfold saveFile_request. rewrite Hc.
  apply String.eqb_neq in Hp. rewrite Hp.
  unfold set_path. rewrite <- Hc. by destruct ed1.
Qed.

Lemma load_retargets_save_witness :
  content_handler (fs := flat_fs) ∅ (JStr "gone.txt") = ErrorReply 500 "ENOENT"
  ∧ currentFilePath
      (load_from_server (fs := flat_fs) (λ _ old, Returns old) "gone.txt" ∅
         (MkEditor (Some "a.js") "x = 1" (Lang "javascript") "t" []))
    = Some "gone.txt"
  ∧ saveFile_request None
      (load_from_server (fs := flat_fs) (λ _ old, Returns old) "gone.txt" ∅
         (MkEditor (Some "a.js") "x = 1" (Lang "javascript") "t" []))
    = (load_from_server (fs := flat_fs) (λ _ old, Returns old) "gone.txt" ∅
         (MkEditor (Some "a.js") "x = 1" (Lang "javascript") "t" []),
       Some {[ "path" := JStr "gone.txt";
               "content" :=
                 JStr (value
                   (load_from_server (fs := flat_fs) (λ _ old, Returns old)
                      "gone.txt" ∅
                      (MkEditor (Some "a.js") "x = 1" (Lang "javascript") "t" []))) ]}).
Proof.
  split; [reflexivity|].
  apply (load_retargets_save (fs := flat_fs) (λ _ old, Returns old) None ∅
           "gone.txt" (MkEditor (Some "a.js") "x = 1" (Lang "javascript") "t" [])).
  done.
Defined.



End EditorFiles.
